(** * Soong java test fixtures (java/testing.go), the rust source-provider
      collision test, and the module-graph engine they drive.

    The first half of the file holds the definitions: Go values and panics,
    the declarations of the android and dexpreopt packages that
    java/testing.go relies on, the functions of java/testing.go themselves,
    and the graph, variation, provider and mutator-pipeline engine.  The
    second half holds the lemmas. *)

From Stdlib Require Import String Ascii List Arith NArith Lia.
From stdpp Require Import base option list gmap strings sorting.

Open Scope string_scope.
Set Warnings "-register-all".

(** ** Go values *)

(** A Go value held behind [interface{}]: what [config.Once] caches and what
    [fmt.Errorf] formats. *)
Inductive GoValue : Type :=
| StringSetValue (names : gset string)
| OpaqueGoValue (repr : string).

#[global] Instance GoValue_eq_dec : EqDecision GoValue.
Proof. solve_decision. Defined.

(** A run-time panic of the Go program. *)
Inductive GoPanic : Type :=
| IndexOutOfRange (index len : nat)
| TypeAssertionFailed (wanted : string)
| PanicErrorf (format : string) (args : list GoValue).

(** The outcome of a Go call that may panic. *)
Inductive GoResult (A : Type) : Type :=
| Returns (a : A)
| Panics (p : GoPanic).
Arguments Returns {A} a.
Arguments Panics {A} p.

(** The double-quote character, and a string that holds only it. *)
Definition dquote : string := String (ascii_of_nat 34) EmptyString.

(** [strings.HasPrefix(s, prefix)]. *)
Definition HasPrefix (s prefix : string) : bool := String.prefix prefix s.

(** [strings.Join(elems, sep)]. *)
Definition Join (elems : list string) (sep : string) : string :=
  String.concat sep elems.

(** [sort.Strings]: the ascending byte-wise order of Go strings. *)
Definition string_le (a b : string) : Prop := String.leb a b = true.

#[global] Instance string_le_dec : RelDecision string_le.
Proof. intros a b. unfold string_le. apply _. Defined.

Definition sort_Strings (l : list string) : list string :=
  merge_sort string_le l.

(** [slice[i]] with Go's bounds check. *)
Definition index {A : Type} (l : list A) (i : nat) : GoResult A :=
  match l !! i with
  | Some x => Returns x
  | None => Panics (IndexOutOfRange i (length l))
  end.

(** ** Module and provider data of package android *)

(** The concrete Go type of a module, as far as [fakeApexMutator]'s type
    switch tells them apart. *)
Inductive ModuleKind : Type :=
| Library
| SdkLibrary
| OtherModuleType (type_name : string).

#[global] Instance ModuleKind_eq_dec : EqDecision ModuleKind.
Proof. solve_decision. Defined.

(** One variation of a variant: the axis (the mutator's name) and the value. *)
Definition Variation : Type := string * string.

(** A module (variant) as its mutators see it through [mctx.Module()]. *)
Record Module : Type := mkModule {
  Name : string;
  Kind : ModuleKind;
  ApexAvailable : list string;
  ModuleVariations : list Variation
}.

#[global] Instance Module_eq_dec : EqDecision Module.
Proof. solve_decision. Defined.

(** [android.ApexInfo], the fields java/testing.go reads and writes. *)
Record ApexInfo : Type := mkApexInfo {
  ApexVariationName : string;
  InApexVariants : list string
}.

#[global] Instance ApexInfo_eq_dec : EqDecision ApexInfo.
Proof. solve_decision. Defined.

(** Provider keys and the values stored under them. *)
Inductive ProviderId : Type :=
| ApexInfoProvider
| ClasspathFragmentProtoContentInfoProvider
| OtherProvider (name : string).

#[global] Instance ProviderId_eq_dec : EqDecision ProviderId.
Proof. solve_decision. Defined.

Inductive ProviderValue : Type :=
| ApexInfoValue (info : ApexInfo)
| OpaqueValue (repr : string).

#[global] Instance ProviderValue_eq_dec : EqDecision ProviderValue.
Proof. solve_decision. Defined.

(** A module variant of the build graph is addressed by its handle. *)
Abbreviation Handle := nat (only parsing).

(** Declarations of packages android, dexpreopt and java that java/testing.go
    uses and whose bodies live in other files. *)
Class Externals : Type := {
  (** [artApexNames] of java/dexpreopt_config.go *)
  artApexNames : list string;
  (** [android.ConfiguredJarList] and [android.CreateTestConfiguredJarList] *)
  ConfiguredJarList : Type;
  CreateTestConfiguredJarList : list string -> ConfiguredJarList;
  (** [ApexInfo.IsForPlatform] *)
  IsForPlatform : ApexInfo -> bool;
  (** [android.SdkKind], its five kinds listed in the prebuilt tree, and its
      [String] method *)
  SdkKind : Type;
  SdkKind_eq_dec :: EqDecision SdkKind;
  SdkPublic : SdkKind;
  SdkSystem : SdkKind;
  SdkModule : SdkKind;
  SdkSystemServer : SdkKind;
  SdkTest : SdkKind;
  SdkKind_String : SdkKind -> string;
  (** [android.ApiLevel], [android.ApiLevelForTest] and java's
      [systemModuleKind] *)
  ApiLevel : Type;
  ApiLevelForTest : string -> ApiLevel;
  systemModuleKind : SdkKind -> ApiLevel -> SdkKind;
  (** the once-key [legacyCorePlatformApiLookupKey] *)
  legacyCorePlatformApiLookupKey : string
}.

(** ** The mutator context, as [fakeApexMutator] uses it *)

(** A mutator is a program over the calls of
    [android.BottomUpMutatorContext]: each node is one call on [mctx] with the
    continuation that receives its result. *)
Inductive Mut (A : Type) : Type :=
| MRet (a : A)
| MPanic (p : GoPanic)
| MModule (k : Module -> Mut A)
| MCreateVariations (values : list string) (k : list Handle -> Mut A)
| MSetVariationProvider (module : Handle) (provider : ProviderId)
    (value : ProviderValue) (k : Mut A)
| MSetProvider (provider : ProviderId) (value : ProviderValue) (k : Mut A)
| MAddDependency (tag name : string) (k : Mut A).
Arguments MRet {A} a.
Arguments MPanic {A} p.
Arguments MModule {A} k.
Arguments MCreateVariations {A} values k.
Arguments MSetVariationProvider {A} module provider value k.
Arguments MSetProvider {A} provider value k.
Arguments MAddDependency {A} tag name k.

(** The calls of a mutator that change the graph or the provider store. *)
Inductive CtxCall : Type :=
| CallCreateVariations (values : list string)
| CallSetVariationProvider (module : Handle) (provider : ProviderId)
    (value : ProviderValue)
| CallSetProvider (provider : ProviderId) (value : ProviderValue)
| CallAddDependency (tag name : string).

(** An arbitrary implementation of the context, seen from the mutator: the
    module it is visiting and what [CreateVariations] hands back (which may
    depend on the calls made so far). *)
Record CtxOracle : Type := mkCtxOracle {
  oracle_module : Module;
  oracle_variations : list CtxCall -> list string -> list Handle
}.

(** The calls a mutator makes against a context, in order, and how it ends. *)
Fixpoint calls_of {A : Type} (ctx : CtxOracle) (done : list CtxCall)
    (m : Mut A) : list CtxCall * GoResult A :=
  match m with
  | MRet a => (done, Returns a)
  | MPanic p => (done, Panics p)
  | MModule k => calls_of ctx done (k (oracle_module ctx))
  | MCreateVariations values k =>
      calls_of ctx (done ++ [CallCreateVariations values])
        (k (oracle_variations ctx done values))
  | MSetVariationProvider h p v k =>
      calls_of ctx (done ++ [CallSetVariationProvider h p v]) k
  | MSetProvider p v k => calls_of ctx (done ++ [CallSetProvider p v]) k
  | MAddDependency tag name k =>
      calls_of ctx (done ++ [CallAddDependency tag name]) k
  end.

(** The handles a list of calls sets a provider on through
    [SetVariationProvider]. *)
Definition provider_targets (cs : list CtxCall) : list Handle :=
  omap (fun c => match c with
                 | CallSetVariationProvider h _ _ => Some h
                 | _ => None
                 end) cs.

(** [fakeApexMutator] of java/testing.go.  The type switch admits [*Library]
    and [*SdkLibrary]; [modules[1]] is bounds-checked as Go does. *)
Definition fakeApexMutator : Mut unit :=
  MModule (fun module =>
    match Kind module with
    | Library | SdkLibrary =>
        MModule (fun module' =>
          if (0 <? length (ApexAvailable module'))%nat then
            MCreateVariations [EmptyString; "apex1000"] (fun modules =>
              let apexInfo :=
                {| ApexVariationName := "apex1000"; InApexVariants := [] |} in
              match index modules 1 with
              | Returns m1 =>
                  MSetVariationProvider m1 ApexInfoProvider
                    (ApexInfoValue apexInfo) (MRet tt)
              | Panics p => MPanic p
              end)
          else MRet tt)
    | OtherModuleType _ => MRet tt
    end).

(** The modules the fake mutator is said to split: a Library or an
    SdkLibrary with a non-empty ApexAvailable list. *)
Definition has_apex_variants (m : Module) : Prop :=
  (Kind m = Library \/ Kind m = SdkLibrary) /\ ApexAvailable m <> [].

#[global] Instance has_apex_variants_dec m : Decision (has_apex_variants m).
Proof. unfold has_apex_variants. apply _. Defined.

(** The provider value the fake mutator stores. *)
Definition fake_apex_info : ProviderValue :=
  ApexInfoValue {| ApexVariationName := "apex1000"; InApexVariants := [] |}.

(** A mutator that never calls [CreateVariations], whatever it is
    answered. *)
Inductive NoVariations {A : Type} : Mut A -> Prop :=
| nv_ret (a : A) : NoVariations (MRet a)
| nv_panic (p : GoPanic) : NoVariations (MPanic p)
| nv_module (k : Module -> Mut A) :
    (forall m, NoVariations (k m)) -> NoVariations (MModule k)
| nv_set_variation_provider h p v (k : Mut A) :
    NoVariations k -> NoVariations (MSetVariationProvider h p v k)
| nv_set_provider p v (k : Mut A) :
    NoVariations k -> NoVariations (MSetProvider p v k)
| nv_add_dependency tag name (k : Mut A) :
    NoVariations k -> NoVariations (MAddDependency tag name k).

(** Mutator registration: [ctx.BottomUp(name, fn)], [ctx.TopDown(name, fn)]
    and the [Parallel()] mark. *)
Inductive Direction : Type := BottomUp | TopDown.

Record MutatorRegistration : Type := mkMutator {
  mut_name : string;
  mut_direction : Direction;
  mut_parallel : bool;
  mut_fn : Mut unit
}.

(** The part of [android.RegistrationContext] the fake mutator touches: the
    mutators registered to run after dependency resolution, in order. *)
Record RegistrationContext : Type := mkRegistrationContext {
  postDepsMutators : list MutatorRegistration
}.

(** [ctx.BottomUp("apex", fakeApexMutator).Parallel()] *)
Definition fakeApexRegistration : MutatorRegistration :=
  {| mut_name := "apex"; mut_direction := BottomUp;
     mut_parallel := true; mut_fn := fakeApexMutator |}.

(** [registerFakeApexMutator] of java/testing.go. *)
Definition registerFakeApexMutator (ctx : RegistrationContext)
    : RegistrationContext :=
  {| postDepsMutators := postDepsMutators ctx ++ [fakeApexRegistration] |}.

(** ** Assertions of java/testing.go *)

(** A visit of a sequence of modules: the callback is called on each of them
    in turn. *)
Definition visit_sequence (modules : list Module)
    (fn : Module -> list string -> list string) (s : list string)
    : list string :=
  fold_left (fun s m => fn m s) modules s.

(** [CheckModuleDependencies] of java/testing.go.  [visit] is
    [ctx.VisitDirectDeps(module, fn)] for the module that
    [ctx.ModuleForTests(name, variant)] found; the callback appends the name
    of each module it is called on to [deps].  The names are sorted and then
    compared with [expected]; the result is the arguments of the [t.Errorf]
    call, if it is made. *)
Definition CheckModuleDependencies
    (visit : (Module -> list string -> list string) -> list string ->
             list string)
    (expected : list string) : option (list string * list string) :=
  let deps := visit (fun m deps => (deps ++ [Name m])%list) [] in
  let deps := sort_Strings deps in
  let actual := deps in
  if decide (expected = actual) then None else Some (expected, actual).

(** ** Fixture preparers of java/testing.go *)

Section JavaTesting.
Context `{Ext : Externals}.

(** [android.FixtureProductVariables], the two fields set here. *)
Record FixtureProductVariables : Type := mkProductVariables {
  BootJars : option ConfiguredJarList;
  ApexBootJars : option ConfiguredJarList
}.

(** [android.Config], reduced to its once-cache. *)
Record Config : Type := mkConfig {
  onceCache : gmap string GoValue
}.

(** [config.Once(key, value)] of package android, as the comment in
    [FixtureUseLegacyCorePlatformApi] describes it: it tries to set the value
    and returns the value that is set; that is the cached value if the key is
    set, else the computed one, which is then cached. *)
Definition Once (config : Config) (key : string) (value : unit -> GoValue)
    : GoValue * Config :=
  match onceCache config !! key with
  | Some cached => (cached, config)
  | None =>
      let v := value tt in
      (v, {| onceCache := <[key := v]> (onceCache config) |})
  end.

(** The fixture preparers built here, as the constructors of package
    android and package dexpreopt. *)
Inductive FixturePreparer : Type :=
| GroupFixturePreparers (preparers : list FixturePreparer)
| FixtureAddTextFile (path contents : string)
| FixtureMergeMockFs (fs : gmap string (list Byte.byte))
| FixtureModifyProductVariables
    (mutator : FixtureProductVariables -> FixtureProductVariables)
| FixtureModifyConfig (mutator : Config -> GoResult Config)
| FixtureRegisterWithContext
    (registrar : RegistrationContext -> RegistrationContext)
| FixtureSetBootJars (bootJars : list string)
| FixtureSetArtBootJars (bootJars : list string)
| FixtureSetApexBootJars (bootJars : list string)
| PrepareForTestWithFakeDex2oatd.

(** [fs[path] = nil] *)
Definition put_nil (fs : gmap string (list Byte.byte)) (path : string)
    : gmap string (list Byte.byte) :=
  <[path := []]> fs.

(** [MockFS.Merge]: every entry of [extra] is written into [fs]. *)
Definition Merge (fs extra : gmap string (list Byte.byte))
    : gmap string (list Byte.byte) :=
  extra ∪ fs.

(** [prebuiltApisFilesForModules]: the loop over the sdk kinds of one level,
    then the level's own files. *)
Definition prebuiltApisFilesForLib (level : string) (sdkKind : SdkKind)
    (fs : gmap string (list Byte.byte)) (lib : string)
    : gmap string (list Byte.byte) :=
  let fs := put_nil fs ("prebuilts/sdk/" +:+ level +:+ "/" +:+
                        SdkKind_String sdkKind +:+ "/" +:+ lib +:+ ".jar") in
  if decide (level ≠ "current") then
    let fs := put_nil fs ("prebuilts/sdk/" +:+ level +:+ "/" +:+
                          SdkKind_String sdkKind +:+ "/api/" +:+ lib +:+
                          ".txt") in
    put_nil fs ("prebuilts/sdk/" +:+ level +:+ "/" +:+
                SdkKind_String sdkKind +:+ "/api/" +:+ lib +:+
                "-removed.txt")
  else fs.

Definition prebuiltApisFilesForKind (level : string) (libs : list string)
    (fs : gmap string (list Byte.byte)) (sdkKind : SdkKind)
    : gmap string (list Byte.byte) :=
  let apiLevel := ApiLevelForTest level in
  let fs :=
    if decide (sdkKind = systemModuleKind sdkKind apiLevel) then
      put_nil fs ("prebuilts/sdk/" +:+ level +:+ "/" +:+
                  SdkKind_String sdkKind +:+ "/core-for-system-modules.jar")
    else fs in
  fold_left (prebuiltApisFilesForLib level sdkKind) libs fs.

Definition prebuiltApisFilesForLevel (libs : list string)
    (fs : gmap string (list Byte.byte)) (level : string)
    : gmap string (list Byte.byte) :=
  let fs :=
    fold_left (prebuiltApisFilesForKind level libs)
      [SdkPublic; SdkSystem; SdkModule; SdkSystemServer; SdkTest] fs in
  let fs :=
    if decide (level = "current") then
      put_nil fs "prebuilts/sdk/current/core/android.jar"
    else fs in
  put_nil fs ("prebuilts/sdk/" +:+ level +:+ "/public/framework.aidl").

Definition prebuiltApisFilesForModules (apiLevels modules : list string)
    : gmap string (list Byte.byte) :=
  let libs := "android" :: modules in
  fold_left (prebuiltApisFilesForLevel libs) apiLevels ∅.

(** [prebuiltExtensionApiFiles] *)
Definition prebuiltExtensionApiFilesForLib (level : string)
    (sdkKind : SdkKind) (fs : gmap string (list Byte.byte)) (lib : string)
    : gmap string (list Byte.byte) :=
  let fs := put_nil fs ("prebuilts/sdk/extensions/" +:+ level +:+ "/" +:+
                        SdkKind_String sdkKind +:+ "/api/" +:+ lib +:+
                        ".txt") in
  put_nil fs ("prebuilts/sdk/extensions/" +:+ level +:+ "/" +:+
              SdkKind_String sdkKind +:+ "/api/" +:+ lib +:+
              "-removed.txt").

Definition prebuiltExtensionApiFiles (extensionLevels modules : list string)
    : gmap string (list Byte.byte) :=
  fold_left (fun fs level =>
    fold_left (fun fs sdkKind =>
      fold_left (prebuiltExtensionApiFilesForLib level sdkKind) modules fs)
      [SdkPublic; SdkSystem; SdkModule; SdkSystemServer] fs)
    extensionLevels ∅.

(** [android.SortedStringKeys] *)
Definition SortedStringKeys (m : gmap string (list string)) : list string :=
  sort_Strings (fst <$> map_to_list m).

Definition tab : string := String (ascii_of_nat 9) EmptyString.
Definition nl : string := String (ascii_of_nat 10) EmptyString.

(** The text of prebuilts/sdk/Android.bp, [fmt.Sprintf] of the template with
    its one [%s] filled in. *)
Definition prebuilt_apis_bp (api_dirs : string) : string :=
  nl +:+
  tab +:+ tab +:+ tab +:+ "prebuilt_apis {" +:+ nl +:+
  tab +:+ tab +:+ tab +:+ tab +:+
    "name: " +:+ dquote +:+ "sdk" +:+ dquote +:+ "," +:+ nl +:+
  tab +:+ tab +:+ tab +:+ tab +:+
    "api_dirs: [" +:+ dquote +:+ api_dirs +:+ dquote +:+ "]," +:+ nl +:+
  tab +:+ tab +:+ tab +:+ tab +:+
    "extensions_dir: " +:+ dquote +:+ "extensions" +:+ dquote +:+ "," +:+
    nl +:+
  tab +:+ tab +:+ tab +:+ tab +:+
    "imports_sdk_version: " +:+ dquote +:+ "none" +:+ dquote +:+ "," +:+
    nl +:+
  tab +:+ tab +:+ tab +:+ tab +:+ "imports_compile_dex: true," +:+ nl +:+
  tab +:+ tab +:+ tab +:+ "}" +:+ nl +:+
  tab +:+ tab.

(** [FixtureWithPrebuiltApisAndExtensions]; a nil extensions map is [None].
    The [range] loops merge one release at a time. *)
Definition FixtureWithPrebuiltApisAndExtensions
    (apiLevel2Modules : gmap string (list string))
    (extensionLevel2Modules : option (gmap string (list string)))
    : FixturePreparer :=
  let mockFS : gmap string (list Byte.byte) := ∅ in
  let path := "prebuilts/sdk/Android.bp" in
  let bp :=
    prebuilt_apis_bp
      (Join (SortedStringKeys apiLevel2Modules)
            (dquote +:+ ", " +:+ dquote)) in
  let mockFS :=
    map_fold (fun release modules fs =>
                Merge fs (prebuiltApisFilesForModules [release] modules))
      mockFS apiLevel2Modules in
  let mockFS :=
    match extensionLevel2Modules with
    | Some ext =>
        map_fold (fun release modules fs =>
                    Merge fs (prebuiltExtensionApiFiles [release] modules))
          mockFS ext
    | None => mockFS
    end in
  GroupFixturePreparers
    [FixtureAddTextFile path bp; FixtureMergeMockFs mockFS].

(** [FixtureWithPrebuiltApis] *)
Definition FixtureWithPrebuiltApis
    (release2Modules : gmap string (list string)) : FixturePreparer :=
  FixtureWithPrebuiltApisAndExtensions release2Modules None.

(** [PrepareForTestWithPrebuiltsOfCurrentApi] *)
Definition PrepareForTestWithPrebuiltsOfCurrentApi : FixturePreparer :=
  FixtureWithPrebuiltApis {[ "current" := []; "30" := [] ]}.

(** [FixtureWithLastReleaseApis] *)
Definition FixtureWithLastReleaseApis (moduleNames : list string)
    : FixturePreparer :=
  FixtureWithPrebuiltApis {[ "30" := moduleNames ]}.

(** What the comment of [FixtureWithLastReleaseApis] promises, written out:
    the bp file lists the one api dir 30, and the mock file system holds the
    prebuilt files of release 30 for the modules. *)
Definition last_release_apis_spec (moduleNames : list string)
    : FixturePreparer :=
  GroupFixturePreparers
    [FixtureAddTextFile "prebuilts/sdk/Android.bp" (prebuilt_apis_bp "30");
     FixtureMergeMockFs (prebuiltApisFilesForModules ["30"] moduleNames)].

(** [FixtureConfigureBootJars]: the inner loop over [artApexNames], with its
    [break]. *)
Fixpoint isArtApexJar (names : list string) (j : string) (artApex : bool)
    : bool :=
  match names with
  | [] => artApex
  | artApexName :: rest =>
      if HasPrefix j (artApexName +:+ ":") then true
      else isArtApexJar rest j artApex
  end.

(** The outer loop: [artBootJars] grows by [append]. *)
Definition collectArtBootJars (bootJars : list string) : list string :=
  fold_left (fun (artBootJars : list string) (j : string) =>
               if isArtApexJar artApexNames j false
               then (artBootJars ++ [j])%list else artBootJars)
    bootJars [].

(** The jars of the art apexes, said directly: a jar is one when it starts
    with the name of an art apex and a colon. *)
Definition in_art_apex (j : string) : bool :=
  existsb (fun artApexName => HasPrefix j (artApexName +:+ ":"))
    artApexNames.

Definition FixtureConfigureBootJars (bootJars : list string)
    : FixturePreparer :=
  let artBootJars := collectArtBootJars bootJars in
  GroupFixturePreparers
    [FixtureModifyProductVariables (fun variables =>
       {| BootJars := Some (CreateTestConfiguredJarList bootJars);
          ApexBootJars := ApexBootJars variables |});
     FixtureSetBootJars bootJars;
     FixtureSetArtBootJars artBootJars;
     PrepareForTestWithFakeDex2oatd].

(** [FixtureConfigureApexBootJars] *)
Definition FixtureConfigureApexBootJars (bootJars : list string)
    : FixturePreparer :=
  GroupFixturePreparers
    [FixtureModifyProductVariables (fun variables =>
       {| BootJars := BootJars variables;
          ApexBootJars := Some (CreateTestConfiguredJarList bootJars) |});
     FixtureSetApexBootJars bootJars;
     PrepareForTestWithFakeDex2oatd].

(** [FixtureUseLegacyCorePlatformApi]: the closure handed to
    [FixtureModifyConfig].  [reflect.DeepEqual] on two lookup sets is
    equality of the sets. *)
Definition useLegacyCorePlatformApi (moduleNames : list string)
    (config : Config) : GoResult Config :=
  let lookup := StringSetValue (list_to_set moduleNames) in
  let '(cached, config') :=
    Once config legacyCorePlatformApiLookupKey (fun _ => lookup) in
  if decide (cached = lookup) then Returns config'
  else Panics (PanicErrorf
    "attempting to set legacyCorePlatformApiLookupKey to %q but it has already been set to %q"
    [lookup; cached]).

Definition FixtureUseLegacyCorePlatformApi (moduleNames : list string)
    : FixturePreparer :=
  FixtureModifyConfig (useLegacyCorePlatformApi moduleNames).

(** [PrepareForTestWithFakeApexMutator] *)
Definition PrepareForTestWithFakeApexMutator : FixturePreparer :=
  GroupFixturePreparers [FixtureRegisterWithContext registerFakeApexMutator].

(** [apexNamePairFromModule]: [provider] is what
    [ctx.ModuleProvider(module, android.ApexInfoProvider)] returns. *)
Definition apexNamePairFromModule (provider : option ProviderValue)
    (module : Module) : GoResult string :=
  let name := Name module in
  match provider with
  | Some (ApexInfoValue apexInfo) =>
      if IsForPlatform apexInfo then
        Returns ("platform" +:+ ":" +:+ name)
      else
        match index (InApexVariants apexInfo) 0 with
        | Returns apex => Returns (apex +:+ ":" +:+ name)
        | Panics p => Panics p
        end
  | _ => Panics (TypeAssertionFailed "android.ApexInfo")
  end.

(** [ApexNamePairsFromModules]: the loop appends one pair per module;
    [providerOf] is [ctx.ModuleProvider(module, android.ApexInfoProvider)]. *)
Definition ApexNamePairsFromModules
    (providerOf : Module -> option ProviderValue) (modules : list Module)
    : GoResult (list string) :=
  fold_left (fun (pairs : GoResult (list string)) (module : Module) =>
               match pairs with
               | Returns pairs =>
                   match apexNamePairFromModule (providerOf module) module with
                   | Returns apexName => Returns (pairs ++ [apexName])%list
                   | Panics p => Panics p
                   end
               | Panics p => Panics p
               end)
    modules (Returns []).

End JavaTesting.

(** ** The prebuilt file sets, said directly *)

(** [strings.HasSuffix(s, suffix)]. *)
Definition HasSuffix (s suffix : string) : bool :=
  (String.length suffix <=? String.length s)%nat &&
  String.eqb
    (substring (String.length s - String.length suffix)
       (String.length suffix) s)
    suffix.

(** Whether a string holds a colon, the separator of apex:jar pairs. *)
Fixpoint has_colon (s : string) : bool :=
  match s with
  | EmptyString => false
  | String c rest => Ascii.eqb c ":" || has_colon rest
  end.

(** A step [F] of a loop over a mock file system that does nothing but
    write empty files: on [a] it writes the paths [P a], each with nil
    contents; whatever else the result holds was there before, and the
    empty files that were there stay. *)
Definition writes_nil {A : Type}
    (F : gmap string (list Byte.byte) -> A -> gmap string (list Byte.byte))
    (P : A -> string -> Prop) : Prop :=
  (forall fs a path v,
     F fs a !! path = Some v -> (v = [] /\ P a path) \/ fs !! path = Some v) /\
  (forall fs a path, P a path -> F fs a !! path = Some []) /\
  (forall fs a path, fs !! path = Some [] -> F fs a !! path = Some []).

Section PrebuiltFiles.
Context `{Ext : Externals}.

(** The paths [prebuiltApisFilesForModules] writes for one level: the
    level's framework.aidl; for current, the core android.jar; for each of
    the five sdk kinds, the core-for-system-modules jar if the kind is its
    own system module kind, and for android and each module a jar and, for a
    level other than current, the two api text files. *)
Definition prebuilt_api_file (level : string) (modules : list string)
    (path : string) : Prop :=
  path = "prebuilts/sdk/" +:+ level +:+ "/public/framework.aidl" \/
  (level = "current" /\ path = "prebuilts/sdk/current/core/android.jar") \/
  exists sdkKind,
    sdkKind ∈ [SdkPublic; SdkSystem; SdkModule; SdkSystemServer; SdkTest] /\
    ((sdkKind = systemModuleKind sdkKind (ApiLevelForTest level) /\
      path = "prebuilts/sdk/" +:+ level +:+ "/" +:+
             SdkKind_String sdkKind +:+ "/core-for-system-modules.jar") \/
     exists lib,
       lib ∈ "android" :: modules /\
       (path = "prebuilts/sdk/" +:+ level +:+ "/" +:+
               SdkKind_String sdkKind +:+ "/" +:+ lib +:+ ".jar" \/
        (level <> "current" /\
         (path = "prebuilts/sdk/" +:+ level +:+ "/" +:+
                 SdkKind_String sdkKind +:+ "/api/" +:+ lib +:+ ".txt" \/
          path = "prebuilts/sdk/" +:+ level +:+ "/" +:+
                 SdkKind_String sdkKind +:+ "/api/" +:+ lib +:+
                 "-removed.txt")))).

(** The paths [prebuiltExtensionApiFiles] writes for one extension level:
    the two api text files of each module, for each of four sdk kinds. *)
Definition prebuilt_extension_api_file (level : string)
    (modules : list string) (path : string) : Prop :=
  exists sdkKind lib,
    sdkKind ∈ [SdkPublic; SdkSystem; SdkModule; SdkSystemServer] /\
    lib ∈ modules /\
    (path = "prebuilts/sdk/extensions/" +:+ level +:+ "/" +:+
            SdkKind_String sdkKind +:+ "/api/" +:+ lib +:+ ".txt" \/
     path = "prebuilts/sdk/extensions/" +:+ level +:+ "/" +:+
            SdkKind_String sdkKind +:+ "/api/" +:+ lib +:+ "-removed.txt").

(** The two [range] loops of [FixtureWithPrebuiltApisAndExtensions], run
    over the entries of the two maps in a given order.  Go leaves the order
    of a [range] over a map open, so the loops may run in any order of the
    entries. *)
Definition mergePrebuiltFiles
    (apiEntries : list (string * list string))
    (extensionEntries : option (list (string * list string)))
    : gmap string (list Byte.byte) :=
  let mockFS : gmap string (list Byte.byte) := ∅ in
  let mockFS :=
    fold_left (fun fs (entry : string * list string) =>
                 Merge fs (prebuiltApisFilesForModules [entry.1] entry.2))
      apiEntries mockFS in
  match extensionEntries with
  | Some entries =>
      fold_left (fun fs (entry : string * list string) =>
                   Merge fs (prebuiltExtensionApiFiles [entry.1] entry.2))
        entries mockFS
  | None => mockFS
  end.

End PrebuiltFiles.

(** ** CheckHiddenAPIRuleInputs *)

(** The class [\s] of Go's regexp syntax: tab, newline, form feed, carriage
    return and space. *)
Definition is_regexp_space (c : ascii) : bool :=
  Ascii.eqb c "009" || Ascii.eqb c "010" || Ascii.eqb c "012" ||
  Ascii.eqb c "013" || Ascii.eqb c " ".

Definition starts_with_space (s : string) : bool :=
  match s with
  | String c _ => is_regexp_space c
  | EmptyString => false
  end.

(** [regexp.MustCompile(`\n\s+`).ReplaceAllString(s, "\n")]: from left to
    right, every newline that is followed by white space is replaced,
    together with all the white space that follows it, by one newline.
    [inMatch] says that the characters read are inside such a run. *)
Fixpoint replaceNewlineSpace (inMatch : bool) (s : string) : string :=
  match s with
  | EmptyString => EmptyString
  | String c rest =>
      if inMatch && is_regexp_space c then replaceNewlineSpace true rest
      else if Ascii.eqb c "010" && starts_with_space rest then
        String "010" (replaceNewlineSpace true rest)
      else String c (replaceNewlineSpace false rest)
  end.

Section HiddenAPIRuleInputs.
(** [android.Path], and the functions of packages strings and android that
    the check calls: [strings.TrimSpace], [android.SortedUniquePaths], and
    [Paths.RelativeToTop] followed by [Paths.Strings]. *)
Variable Path : Type.
Variable TrimSpace : string -> string.
Variable SortedUniquePaths : list Path -> list Path.
Variable RelativeToTopStrings : list Path -> list string.

(** [android.TestingBuildParams], the fields read here; a nil [Input] is
    [None]. *)
Record TestingBuildParams : Type := mkTestingBuildParams {
  Input : option Path;
  Inputs : list Path;
  Implicits : list Path
}.

(** [CheckHiddenAPIRuleInputs]; the result is the arguments of the
    [t.Errorf] call, if it is made. *)
Definition CheckHiddenAPIRuleInputs (message expected : string)
    (hiddenAPIRule : TestingBuildParams)
    : option (string * string * string) :=
  let inputs : list Path := [] in
  let inputs :=
    match Input hiddenAPIRule with
    | Some input => (inputs ++ [input])%list
    | None => inputs
    end in
  let inputs := (inputs ++ Inputs hiddenAPIRule)%list in
  let inputs := (inputs ++ Implicits hiddenAPIRule)%list in
  let inputs := SortedUniquePaths inputs in
  let actual :=
    TrimSpace (Join (RelativeToTopStrings inputs)
                 (String "010" EmptyString)) in
  let expected := TrimSpace (replaceNewlineSpace false expected) in
  if decide (actual <> expected) then Some (message, expected, actual)
  else None.

End HiddenAPIRuleInputs.

Arguments mkTestingBuildParams {Path} _ _ _.
Arguments Input {Path} _.
Arguments Inputs {Path} _.
Arguments Implicits {Path} _.
Arguments CheckHiddenAPIRuleInputs {Path} TrimSpace SortedUniquePaths
  RelativeToTopStrings message expected hiddenAPIRule.

(** ** Boot image configs *)

(** [*bootImageConfig]: nil, or the address of a config. *)
Inductive Pointer : Type :=
| nil_pointer
| pointer_to (address : nat).

#[global] Instance Pointer_eq_dec : EqDecision Pointer.
Proof. solve_decision. Defined.

(** The outcome of a call that dereferences pointers: it is done, or the Go
    run time panics on a nil pointer. *)
Inductive Deref (A : Type) : Type :=
| Done (a : A)
| NilPointerDereference.
Arguments Done {A} a.
Arguments NilPointerDereference {A}.

Section BootImageConfig.
(** The fields of [bootImageConfig] other than [installDirOnDevice]; the
    struct is declared in java/dexpreopt_config.go. *)
Variable OtherFields : Type.

Record bootImageConfig : Type := mkBootImageConfig {
  installDirOnDevice : string;
  otherFields : OtherFields
}.

(** The configs the pointers lead to. *)
Definition BootImageConfigs : Type := nat -> bootImageConfig.

(** [config[name]] on the [map[string]*bootImageConfig] that
    [genBootImageConfigRaw] returns: a missing key gives the zero value, the
    nil pointer. *)
Definition bootImageConfigNamed (config : gmap string Pointer)
    (name : string) : Pointer :=
  default nil_pointer (config !! name).

(** [FixtureModifyBootImageConfig]: the closure handed to
    [android.FixtureModifyConfig], on the map that
    [genBootImageConfigRaw(pathCtx)] returns. *)
Definition FixtureModifyBootImageConfig (name : string)
    (configModifier : Pointer -> BootImageConfigs -> Deref BootImageConfigs)
    (config : gmap string Pointer) (configs : BootImageConfigs)
    : Deref BootImageConfigs :=
  configModifier (bootImageConfigNamed config name) configs.

(** [config.installDirOnDevice = installDir] through the pointer. *)
Definition setInstallDirOnDevice (installDir : string) (config : Pointer)
    (configs : BootImageConfigs) : Deref BootImageConfigs :=
  match config with
  | nil_pointer => NilPointerDereference
  | pointer_to address =>
      Done (fun a =>
              if decide (a = address) then
                {| installDirOnDevice := installDir;
                   otherFields := otherFields (configs a) |}
              else configs a)
  end.

(** [FixtureSetBootImageInstallDirOnDevice] *)
Definition FixtureSetBootImageInstallDirOnDevice (name installDir : string)
    (config : gmap string Pointer) (configs : BootImageConfigs)
    : Deref BootImageConfigs :=
  FixtureModifyBootImageConfig name (setInstallDirOnDevice installDir)
    config configs.

End BootImageConfig.

Arguments installDirOnDevice {OtherFields} _.
Arguments otherFields {OtherFields} _.
Arguments mkBootImageConfig {OtherFields} _ _.
Arguments bootImageConfigNamed config name : assert.
Arguments FixtureModifyBootImageConfig {OtherFields} name configModifier
  config configs.
Arguments setInstallDirOnDevice {OtherFields} installDir config configs.
Arguments FixtureSetBootImageInstallDirOnDevice {OtherFields} name installDir
  config configs.

(** ** The module-graph engine

    java/testing.go reaches the engine only through [mctx] and [ctx]: the code
    of the dependency graph, the variation engine, the provider store and the
    mutator pipeline is not among the sources.  The definitions of this part
    are modelled from the engine's specification, and each says from which
    section. *)

#[global] Instance ProviderId_countable : Countable ProviderId.
Proof.
  refine (inj_countable'
    (fun p => match p with
              | ApexInfoProvider => inl 0
              | ClasspathFragmentProtoContentInfoProvider => inl 1
              | OtherProvider s => inr s
              end)
    (fun c => match c with
              | inl 0 => ApexInfoProvider
              | inl _ => ClasspathFragmentProtoContentInfoProvider
              | inr s => OtherProvider s
              end) _).
  intros []; reflexivity.
Defined.

(** Modelled from the spec: (7) the fatal errors of the engine; a panic of a
    mutator aborts the run too.  [InvalidHandleError] answers a handle that
    no call returned. *)
Inductive EngineError : Type :=
| UnresolvedReferenceError (name : string) (candidates : list Handle)
| CycleError (members : list string)
| ProviderAlreadySetError (module : Handle) (provider : ProviderId)
| VariationError (module : Handle)
| DanglingEdgeError (from to : Handle)
| InvalidHandleError (module : Handle)
| MutatorPanicError (p : GoPanic).

(** The outcome of an engine operation: its result or the fatal error. *)
Inductive Result (A : Type) : Type :=
| Ok (a : A)
| Err (e : EngineError).
Arguments Ok {A} a.
Arguments Err {A} e.

Definition bind {A B : Type} (r : Result A) (f : A -> Result B) : Result B :=
  match r with
  | Ok a => f a
  | Err e => Err e
  end.

Notation "'let*' x ':=' r 'in' k" := (bind r (fun x => k))
  (at level 10, x pattern, r at level 100, k at level 200).

(** Modelled from the spec: the arena of module-variant records (3, 9).  A
    node keeps the module, whether variants have replaced it, and whether it
    is finalized. *)
Record Node : Type := mkNode {
  node_module : Module;
  node_replaced : bool;
  node_finalized : bool
}.

(** Modelled from the spec: a dependency edge (from, to, tag). *)
Record Edge : Type := mkEdge {
  edge_from : Handle;
  edge_to : Handle;
  edge_tag : string
}.

(** Modelled from the spec: the graph is the arena in creation order, the
    edges in insertion order, and the provider store keyed by (module-variant,
    provider-id). *)
Record Graph : Type := mkGraph {
  nodes : list Node;
  edges : list Edge;
  providers : gmap (Handle * ProviderId) ProviderValue
}.

(** Modelled from the spec: (2) the graph before any module is added. *)
Definition empty_graph : Graph :=
  {| nodes := []; edges := []; providers := ∅ |}.

(** Every edge end and every provider key is a handle of the arena. *)
Definition wf_graph (g : Graph) : bool :=
  forallb (fun e => (edge_from e <? length (nodes g))%nat &&
                    (edge_to e <? length (nodes g))%nat) (edges g) &&
  forallb (fun kv => (fst (fst kv) <? length (nodes g))%nat)
          (map_to_list (providers g)).

(** Modelled from the spec: (4.1) [AllModules()], in creation order. *)
Definition AllModules (g : Graph) : list Handle := seq 0 (length (nodes g)).

(** Modelled from the spec: (4.1) [AddModule]. *)
Definition AddModule (g : Graph) (m : Module) : Graph * Handle :=
  ({| nodes := nodes g ++ [mkNode m false false];
      edges := edges g;
      providers := providers g |},
   length (nodes g)).

(** Modelled from the spec: (3) the variants that dependents can resolve are
    the ones present and not replaced by variants. *)
Definition live (g : Graph) (h : Handle) : bool :=
  match nodes g !! h with
  | Some n => negb (node_replaced n)
  | None => false
  end.

(** Modelled from the spec: (3, 4.1) the resolvable variants, in creation
    order. *)
Definition live_modules (g : Graph) : list Handle :=
  List.filter (live g) (AllModules g).

Definition has_name (g : Graph) (name : string) (h : Handle) : bool :=
  match nodes g !! h with
  | Some n => bool_decide (Name (node_module n) = name)
  | None => false
  end.

(** Modelled from the spec: (4.1) the variants a dependency name resolves
    to. *)
Definition candidates (g : Graph) (name : string) : list Handle :=
  List.filter (has_name g name) (live_modules g).

(** Modelled from the spec: (4.1) [AddDependency(from, toName, tag)] fails
    with UnresolvedReference unless the name matches one candidate; the new
    edge goes to the end of the edge list. *)
Definition AddDependency (g : Graph) (from : Handle) (toName tag : string)
    : Result Graph :=
  match nodes g !! from with
  | None => Err (InvalidHandleError from)
  | Some _ =>
      match candidates g toName with
      | [to] =>
          Ok {| nodes := nodes g;
                edges := edges g ++ [mkEdge from to tag];
                providers := providers g |}
      | cs => Err (UnresolvedReferenceError toName cs)
      end
  end.

(** Modelled from the spec: (4.1) [VisitDirectDeps(module, fn)] walks the edge
    list from its first edge to its last and calls [fn] on the target of each
    edge that leaves [module]. *)
Definition VisitDirectDeps {S : Type} (g : Graph) (module : Handle)
    (fn : Handle -> S -> S) (s : S) : S :=
  fold_left (fun s e => if decide (edge_from e = module)
                        then fn (edge_to e) s else s)
    (edges g) s.

(** The direct dependencies of a module, as [VisitDirectDeps] reports them. *)
Definition direct_deps (g : Graph) (module : Handle) : list Handle :=
  VisitDirectDeps g module (fun h acc => acc ++ [h])%list [].

(** Modelled from the spec: (4.4) [SetProvider] is write-once. *)
Definition SetProvider (g : Graph) (module : Handle) (p : ProviderId)
    (v : ProviderValue) : Result Graph :=
  match nodes g !! module with
  | None => Err (InvalidHandleError module)
  | Some _ =>
      match providers g !! (module, p) with
      | Some _ => Err (ProviderAlreadySetError module p)
      | None =>
          Ok {| nodes := nodes g;
                edges := edges g;
                providers := <[(module, p) := v]> (providers g) |}
      end
  end.

(** Modelled from the spec: (4.4) [GetProvider] returns (value, ok); [None]
    is ok=false. *)
Definition GetProvider (g : Graph) (module : Handle) (p : ProviderId)
    : option ProviderValue :=
  providers g !! (module, p).

(** Modelled from the spec: (3, 4.2) the variant of [m] for one more
    variation is a copy of [m] that carries the axis and the value. *)
Definition with_variation (m : Module) (axis value : string) : Module :=
  {| Name := Name m; Kind := Kind m; ApexAvailable := ApexAvailable m;
     ModuleVariations := ModuleVariations m ++ [(axis, value)] |}.

(** Modelled from the spec: (3) a module that has been split is replaced by
    its variants. *)
Definition mark_replaced (n : Node) : Node :=
  {| node_module := node_module n; node_replaced := true;
     node_finalized := node_finalized n |}.

(** Modelled from the spec: (4.2) [CreateVariations(module, axis, values)]
    makes one copy of the module per value, in the order of [values], and
    returns their handles in that order; the module itself is from then on
    replaced.  Incoming edges are left as they are.  A finalized or already
    split module, or no values, is a VariationError. *)
Definition CreateVariations (g : Graph) (module : Handle) (axis : string)
    (values : list string) : Result (Graph * list Handle) :=
  match nodes g !! module with
  | None => Err (InvalidHandleError module)
  | Some n =>
      if node_replaced n || node_finalized n ||
         bool_decide (values = [])
      then Err (VariationError module)
      else
        let variants :=
          (fun v => mkNode (with_variation (node_module n) axis v) false false)
            <$> values in
        Ok ({| nodes := <[module := mark_replaced n]> (nodes g) ++ variants;
               edges := edges g;
               providers := providers g |},
            seq (length (nodes g)) (length values))
  end.

(** Modelled from the spec: (4.2) the modules [CreateVariations] accepts are
    present, not yet replaced by variants, and not finalized. *)
Definition can_vary (g : Graph) (module : Handle) : bool :=
  match nodes g !! module with
  | Some n => negb (node_replaced n) && negb (node_finalized n)
  | None => false
  end.

(** The module record of a variant. *)
Definition module_of (g : Graph) (h : Handle) : option Module :=
  node_module <$> nodes g !! h.

(** [g'] comes from [g] by engine operations: the arena has only grown, and
    no variant of [g] that is live in [g'] was replaced in [g]. *)
Definition graph_grows (g g' : Graph) : Prop :=
  length (nodes g) <= length (nodes g') /\
  forall h, h < length (nodes g) -> live g' h = true -> live g h = true.

(** A variant that [fakeApexMutator] splits when it visits it. *)
Definition splittable (g : Graph) (h : Handle) : Prop :=
  exists n,
    nodes g !! h = Some n /\ has_apex_variants (node_module n) /\
    node_replaced n = false /\ node_finalized n = false.

(** *** Running a mutator on a module variant *)

(** Modelled from the spec: (4.3, 4.5) the mutator context of the engine.  A
    mutator named [axis] visiting [self] reads the module, splits it along
    its own axis, writes providers and adds dependencies through the
    operations above; the first error aborts it. *)
Fixpoint run_mut {A : Type} (axis : string) (self : Handle) (m : Mut A)
    (g : Graph) : Result (A * Graph) :=
  match m with
  | MRet a => Ok (a, g)
  | MPanic p => Err (MutatorPanicError p)
  | MModule k =>
      match nodes g !! self with
      | Some n => run_mut axis self (k (node_module n)) g
      | None => Err (InvalidHandleError self)
      end
  | MCreateVariations values k =>
      let* r := CreateVariations g self axis values in
      run_mut axis self (k (snd r)) (fst r)
  | MSetVariationProvider h p v k =>
      let* g' := SetProvider g h p v in
      run_mut axis self k g'
  | MSetProvider p v k =>
      let* g' := SetProvider g self p v in
      run_mut axis self k g'
  | MAddDependency tag name k =>
      let* g' := AddDependency g self name tag in
      run_mut axis self k g'
  end.

(** *** The order of a pass *)

(** Modelled from the spec: (4.3) a remaining node is ready when none of its
    direct dependencies remains. *)
Definition ready (g : Graph) (remaining : list Handle) (h : Handle) : bool :=
  forallb (fun d => negb (bool_decide (d ∈ remaining))) (direct_deps g h).

Definition module_names (g : Graph) (hs : list Handle) : list string :=
  omap (fun h => (fun n => Name (node_module n)) <$> nodes g !! h) hs.

(** Modelled from the spec: (4.3) the topological order of a bottom-up pass.
    The first ready node in creation order is emitted next; when nodes remain
    and none is ready, they lie on or behind a cycle, which is fatal. *)
Fixpoint topo_order (fuel : nat) (g : Graph) (remaining emitted : list Handle)
    : Result (list Handle) :=
  match remaining with
  | [] => Ok emitted
  | _ :: _ =>
      match fuel with
      | O => Err (CycleError (module_names g remaining))
      | S fuel' =>
          match List.find (ready g remaining) remaining with
          | Some h =>
              topo_order fuel' g
                (List.filter (fun h' => negb (h' =? h)%nat) remaining)
                (emitted ++ [h])%list
          | None => Err (CycleError (module_names g remaining))
          end
      end
  end.

(** Modelled from the spec: (4.3) a bottom-up pass visits dependencies before
    their dependents, a top-down pass uses the reverse order; both are
    computed over the current graph. *)
Definition pass_order (d : Direction) (g : Graph) : Result (list Handle) :=
  let* order :=
    topo_order (length (live_modules g)) g (live_modules g) [] in
  match d with
  | BottomUp => Ok order
  | TopDown => Ok (rev order)
  end.

(** *** One pass: the worklist *)

(** Modelled from the spec: (4.3) the state of a pass is its pending queue,
    the variants visited so far, and the graph. *)
Record PassState : Type := mkPassState {
  ps_pending : list Handle;
  ps_visited : list Handle;
  ps_graph : Graph
}.

(** Modelled from the spec: (4.3) the variants that exist in [g'] and did not
    exist in [g], in creation order. *)
Definition created (g g' : Graph) : list Handle :=
  seq (length (nodes g)) (length (nodes g') - length (nodes g)).

(** Modelled from the spec: (4.3) one step of the worklist.  The head of the
    pending queue is visited, and the variants its visit created are appended
    to the queue. *)
Definition pass_step (axis : string) (fn : Mut unit) (s : PassState)
    : Result PassState :=
  match ps_pending s with
  | [] => Ok s
  | h :: rest =>
      let* r := run_mut axis h fn (ps_graph s) in
      Ok {| ps_pending := (rest ++ created (ps_graph s) (snd r))%list;
            ps_visited := (ps_visited s ++ [h])%list;
            ps_graph := snd r |}
  end.

(** Modelled from the spec: (4.3) [n] steps of the worklist; the first error
    aborts the pass. *)
Fixpoint pass_steps (n : nat) (axis : string) (fn : Mut unit) (s : PassState)
    : Result PassState :=
  match n with
  | O => Ok s
  | S n' =>
      let* s' := pass_step axis fn s in
      pass_steps n' axis fn s'
  end.

(** Modelled from the spec: (4.3) the worklist, run under a budget of [fuel]
    visits; [None] when the queue is not empty once the budget is spent. *)
Definition run_worklist (fuel : nat) (axis : string) (fn : Mut unit)
    (s : PassState) : option (Result PassState) :=
  match pass_steps fuel axis fn s with
  | Err e => Some (Err e)
  | Ok s' =>
      match ps_pending s' with
      | [] => Some (Ok s')
      | _ :: _ => None
      end
  end.

(** Modelled from the spec: (4.3) the dangling edges of a graph. *)
Definition dangling (g : Graph) : list Edge :=
  List.filter (fun e => negb (edge_to e <? length (nodes g))%nat) (edges g).

(** Modelled from the spec: (4.3, 7) the check after a pass fails fast on a
    dangling edge. *)
Definition check_dangling (g : Graph) : Result Graph :=
  match dangling g with
  | [] => Ok g
  | e :: _ => Err (DanglingEdgeError (edge_from e) (edge_to e))
  end.

(** Modelled from the spec: (4.3) one pass.  The order is computed over the
    current graph, the worklist is run from it, and the result is checked for
    dangling edges.  The pass returns the variants in the order it visited
    them, and the graph. *)
Definition run_pass (fuel : nat) (reg : MutatorRegistration) (g : Graph)
    : option (Result (list Handle * Graph)) :=
  match pass_order (mut_direction reg) g with
  | Err e => Some (Err e)
  | Ok order =>
      match run_worklist fuel (mut_name reg) (mut_fn reg)
              (mkPassState order [] g) with
      | None => None
      | Some (Err e) => Some (Err e)
      | Some (Ok s) =>
          Some (let* g' := check_dangling (ps_graph s) in
                Ok (ps_visited s, g'))
      end
  end.

(** *** The pipeline *)

(** Modelled from the spec: (3) freezing the graph finalizes every module. *)
Definition finalize (g : Graph) : Graph :=
  {| nodes := (fun n => mkNode (node_module n) (node_replaced n) true)
                <$> nodes g;
     edges := edges g;
     providers := providers g |}.

(** Modelled from the spec: (4.3, 5) [RunAll].  The passes run in
    registration order, the first fatal error aborts the remaining passes, and
    after the last pass the graph is frozen. *)
Fixpoint RunAll (fuel : nat) (regs : list MutatorRegistration) (g : Graph)
    : option (Result Graph) :=
  match regs with
  | [] => Some (Ok (finalize g))
  | reg :: rest =>
      match run_pass fuel reg g with
      | None => None
      | Some (Err e) => Some (Err e)
      | Some (Ok (_, g')) => RunAll fuel rest g'
      end
  end.

(** Modelled from the spec: (6) a module definition is the module's declared
    attributes and its list of (dependency-name, tag) pairs. *)
Record ModuleDef : Type := mkModuleDef {
  def_module : Module;
  def_deps : list (string * string)
}.

(** Modelled from the spec: (2, 6) the modules are added in the order of
    their definitions. *)
Definition add_modules (defs : list ModuleDef) (g : Graph) : Graph :=
  fold_left (fun g d => fst (AddModule g (def_module d))) defs g.

(** Modelled from the spec: (4.1) a list of [AddDependency] calls, made one
    after the other; the first error aborts. *)
Fixpoint add_dependencies (g : Graph)
    (calls : list (Handle * (string * string))) : Result Graph :=
  match calls with
  | [] => Ok g
  | (from, (toName, tag)) :: rest =>
      let* g' := AddDependency g from toName tag in
      add_dependencies g' rest
  end.

(** The targets that the calls made from [module] resolve to in [g], in the
    order of the calls. *)
Definition call_targets (g : Graph) (module : Handle)
    (calls : list (Handle * (string * string))) : list Handle :=
  flat_map (fun c => if decide (fst c = module)
                     then candidates g (fst (snd c)) else [])
    calls.

(** Modelled from the spec: (6) the [AddDependency] calls of a list of
    definitions: the module at position [i] of the list has handle
    [first + i]. *)
Fixpoint dependency_calls (first : Handle) (defs : list ModuleDef)
    : list (Handle * (string * string)) :=
  match defs with
  | [] => []
  | d :: rest =>
      ((fun dep => (first, dep)) <$> def_deps d) ++
      dependency_calls (S first) rest
  end.

(** Modelled from the spec: (2, 6) the graph of a set of module definitions:
    first every module, then every declared dependency, resolved by name. *)
Definition build_graph (defs : list ModuleDef) : Result Graph :=
  add_dependencies (add_modules defs empty_graph) (dependency_calls 0 defs).

(** Modelled from the spec: (2) a full pipeline run, from the module
    definitions and the mutator registrations to the frozen graph. *)
Definition run_pipeline (fuel : nat) (defs : list ModuleDef)
    (regs : list MutatorRegistration) : option (Result Graph) :=
  match build_graph defs with
  | Err e => Some (Err e)
  | Ok g => RunAll fuel regs g
  end.

(** [ctx.VisitDirectDeps(module, fn)] on the engine: [fn] is called on the
    module behind each handle that [VisitDirectDeps] visits. *)
Definition visit_direct_dep_modules (g : Graph) (module : Handle)
    (fn : Module -> list string -> list string) (s : list string)
    : list string :=
  VisitDirectDeps g module
    (fun h s => match module_of g h with
                | Some m => fn m s
                | None => s
                end) s.

(** ** Source providers of a rust module

    Of package rust only the test rust/builder_test.go is among the sources;
    the check it exercises is modelled from the specification. *)

(** Modelled from the spec: (8) a source-providing dependency, such as a
    rust_bindgen module, and the file it generates: its stem with the
    extension .rs. *)
Record SourceProvider : Type := mkSourceProvider {
  sp_name : string;
  sp_stem : string
}.

Definition source_output (sp : SourceProvider) : string :=
  sp_stem sp +:+ ".rs".

Definition collision_message (filename : string) : string :=
  "multiple source providers generate the same filename output: " +:+
  filename.

(** Modelled from the spec: (8) the outputs of the source providers of one
    module are collected in order; an output whose filename was collected
    before is reported. *)
Fixpoint collision_errors (outputs : list string) (srcDeps : list string)
    : list string :=
  match srcDeps with
  | [] => []
  | f :: rest =>
      (if bool_decide (f ∈ outputs) then [collision_message f] else []) ++
      collision_errors (outputs ++ [f]) rest
  end.

(** Modelled from the spec: (7, 8) the build of a module from its source
    providers fails with the reported errors, if there are any, and else has
    the collected outputs. *)
Definition build_sources (deps : list SourceProvider)
    : list string + list string :=
  let srcDeps := source_output <$> deps in
  match collision_errors [] srcDeps with
  | [] => inr srcDeps
  | errs => inl errs
  end.

(** The modules of [TestSourceProviderCollision] in rust/builder_test.go that
    provide sources to source_collider. *)
Definition collider_deps : list SourceProvider :=
  [mkSourceProvider "libbindings1" "bindings";
   mkSourceProvider "libbindings2" "bindings"].

(** ** Sample data for the examples *)

(** One choice of the external declarations, to run the definitions on. *)
Definition sample_externals : Externals :=
  {| artApexNames := ["com.android.art"; "com.android.art.debug"];
     ConfiguredJarList := list string;
     CreateTestConfiguredJarList := fun jars => jars;
     IsForPlatform := fun info =>
       bool_decide (ApexVariationName info = EmptyString);
     SdkKind := nat;
     SdkPublic := 0; SdkSystem := 1; SdkModule := 2; SdkSystemServer := 3;
     SdkTest := 4;
     SdkKind_String := fun k =>
       match k with
       | 0 => "public" | 1 => "system" | 2 => "module-lib"
       | 3 => "system-server" | _ => "test"
       end;
     ApiLevel := string;
     ApiLevelForTest := fun level => level;
     systemModuleKind := fun k _ => 0;
     legacyCorePlatformApiLookupKey := "legacyCorePlatformApiLookupKey" |}.

Definition sample_library : Module :=
  mkModule "libfoo" Library ["myapex"] [].

Definition sample_app : Module :=
  mkModule "app" (OtherModuleType "android_app") [] [].

(** A context that answers [CreateVariations] with the handles 7, 8, ... *)
Definition sample_oracle (m : Module) : CtxOracle :=
  {| oracle_module := m;
     oracle_variations := fun _ values => seq 7 (length values) |}.

(** Two module definitions: an app that depends on a library. *)
Definition sample_defs : list ModuleDef :=
  [mkModuleDef sample_app [("libfoo", "lib")]; mkModuleDef sample_library []].

(** Their graph: the app is node 0, the library node 1, and one edge leads
    from the app to the library. *)
Definition sample_graph : Graph :=
  {| nodes := [mkNode sample_app false false;
               mkNode sample_library false false];
     edges := [mkEdge 0 1 "lib"];
     providers := ∅ |}.

Definition sample_other_library : Module :=
  mkModule "libbar" Library [] [].

(** Three modules without any dependency yet: the app is node 0, libfoo
    node 1 and libbar node 2. *)
Definition sample_three_modules : Graph :=
  {| nodes := [mkNode sample_app false false;
               mkNode sample_library false false;
               mkNode sample_other_library false false];
     edges := [];
     providers := ∅ |}.

(** A mutator in the manner of [fakeApexMutator] that leaves the variants of
    its own axis alone: it splits a library that has no variation yet. *)
Definition split_once : Mut unit :=
  MModule (fun module =>
    match ModuleVariations module with
    | [] =>
        if decide (has_apex_variants module) then
          MCreateVariations [EmptyString; "apex1000"] (fun modules =>
            match index modules 1 with
            | Returns m1 =>
                MSetVariationProvider m1 ApexInfoProvider fake_apex_info
                  (MRet tt)
            | Panics p => MPanic p
            end)
        else MRet tt
    | _ :: _ => MRet tt
    end).

Definition split_once_mutator : MutatorRegistration :=
  mkMutator "apex" BottomUp true split_once.

(** The sample graph after the pass of [split_once_mutator]: the library is
    replaced by its two variants, nodes 2 and 3, and node 3 has the provider. *)
Definition sample_split_graph : Graph :=
  {| nodes := [mkNode sample_app false false;
               mkNode sample_library true false;
               mkNode (with_variation sample_library "apex" EmptyString)
                 false false;
               mkNode (with_variation sample_library "apex" "apex1000")
                 false false];
     edges := [mkEdge 0 1 "lib"];
     providers := {[ (3, ApexInfoProvider) := fake_apex_info ]} |}.

(** ** Lemmas on java/testing.go *)

Section JavaTestingFacts.
Context `{Ext : Externals}.

(** *** FixtureConfigureBootJars *)

Lemma isArtApexJar_existsb (names : list string) (j : string) (b : bool) :
  isArtApexJar names j b =
  existsb (fun a => HasPrefix j (a +:+ ":")) names || b.
Proof.
  induction names as [|a names IH]; simpl; [done|].
  destruct (HasPrefix j (a +:+ ":")); [done|]. exact IH.
Qed.

Lemma isArtApexJar_in_art_apex (j : string) :
  isArtApexJar artApexNames j false = in_art_apex j.
Proof.
  rewrite isArtApexJar_existsb. unfold in_art_apex. apply orb_false_r.
Qed.

Lemma collect_loop_filter (bootJars acc : list string) :
  fold_left (fun (artBootJars : list string) (j : string) =>
               if isArtApexJar artApexNames j false
               then (artBootJars ++ [j])%list else artBootJars)
    bootJars acc
  = (acc ++ List.filter in_art_apex bootJars)%list.
Proof.
  revert acc. induction bootJars as [|j js IH]; intros acc; simpl.
  - by rewrite app_nil_r.
  - rewrite IH, isArtApexJar_in_art_apex.
    destruct (in_art_apex j); [|done].
    by rewrite <- app_assoc.
Qed.

Lemma collectArtBootJars_filter (bootJars : list string) :
  collectArtBootJars bootJars = List.filter in_art_apex bootJars.
Proof. unfold collectArtBootJars. by rewrite collect_loop_filter. Qed.

Lemma in_art_apex_true (j : string) :
  in_art_apex j = true <->
  exists artApexName,
    artApexName ∈ artApexNames /\ HasPrefix j (artApexName +:+ ":") = true.
Proof.
  unfold in_art_apex. rewrite existsb_exists.
  split; intros (a & Ha & Hp); exists a; split; try done;
    by apply list_elem_of_In.
Qed.

Lemma filter_sublist {A : Type} (p : A -> bool) (l : list A) :
  List.filter p l `sublist_of` l.
Proof.
  induction l as [|x l IH]; simpl; [constructor|].
  destruct (p x); by constructor.
Qed.

(** C10: [FixtureConfigureBootJars] hands [FixtureSetArtBootJars] exactly the
    jars of the input that start with an art apex name and a colon, in input
    order (a subsequence of the input), and hands all the input jars to
    [FixtureSetBootJars] and to the BootJars product variable. *)
Theorem FixtureConfigureBootJars_art_subsequence (bootJars : list string) :
  exists setVariables artBootJars,
    FixtureConfigureBootJars bootJars =
      GroupFixturePreparers
        [FixtureModifyProductVariables setVariables;
         FixtureSetBootJars bootJars;
         FixtureSetArtBootJars artBootJars;
         PrepareForTestWithFakeDex2oatd] /\
    (forall variables,
       BootJars (setVariables variables) =
         Some (CreateTestConfiguredJarList bootJars) /\
       ApexBootJars (setVariables variables) = ApexBootJars variables) /\
    artBootJars = List.filter in_art_apex bootJars /\
    artBootJars `sublist_of` bootJars /\
    (forall j, j ∈ artBootJars <->
       j ∈ bootJars /\
       exists artApexName,
         artApexName ∈ artApexNames /\
         HasPrefix j (artApexName +:+ ":") = true).
Proof.
  eexists _, (collectArtBootJars bootJars).
  split; [reflexivity|]. split; [done|].
  rewrite collectArtBootJars_filter.
  split; [done|]. split; [apply filter_sublist|].
  intros j. rewrite list_elem_of_In, filter_In, <- list_elem_of_In.
  by rewrite in_art_apex_true.
Qed.

End JavaTestingFacts.

Section PrebuiltApisFacts.
Context `{Ext : Externals}.

Lemma sort_Strings_singleton (s : string) : sort_Strings [s] = [s].
Proof. reflexivity. Qed.

Lemma SortedStringKeys_singleton (release : string) (modules : list string) :
  SortedStringKeys {[ release := modules ]} = [release].
Proof.
  unfold SortedStringKeys. rewrite map_to_list_singleton. reflexivity.
Qed.

Lemma Merge_empty (extra : gmap string (list Byte.byte)) :
  Merge ∅ extra = extra.
Proof. unfold Merge. apply (right_id_L ∅ (∪)). Qed.

(** With one release the bp text lists that release alone and the mock file
    system is the release's own file set. *)
Lemma FixtureWithPrebuiltApis_singleton (release : string)
    (modules : list string) :
  FixtureWithPrebuiltApis {[ release := modules ]} =
    GroupFixturePreparers
      [FixtureAddTextFile "prebuilts/sdk/Android.bp"
         (prebuilt_apis_bp release);
       FixtureMergeMockFs (prebuiltApisFilesForModules [release] modules)].
Proof.
  unfold FixtureWithPrebuiltApis, FixtureWithPrebuiltApisAndExtensions.
  rewrite SortedStringKeys_singleton, map_fold_singleton, Merge_empty.
  unfold Join. simpl. reflexivity.
Qed.

(** C9: [FixtureWithLastReleaseApis] of a list of module names is the
    preparer [FixtureWithPrebuiltApis] makes of the one-entry map from
    release 30 to the names, which is the preparer
    [FixtureWithPrebuiltApisAndExtensions] makes of that map and a nil map
    of extensions; written out, it adds the bp file with the api dir 30 and
    the prebuilt files of release 30. *)
Theorem FixtureWithLastReleaseApis_refines (moduleNames : list string) :
  FixtureWithLastReleaseApis moduleNames =
    FixtureWithPrebuiltApis {[ "30" := moduleNames ]} /\
  FixtureWithLastReleaseApis moduleNames =
    FixtureWithPrebuiltApisAndExtensions {[ "30" := moduleNames ]} None /\
  FixtureWithLastReleaseApis moduleNames =
    last_release_apis_spec moduleNames.
Proof.
  split; [reflexivity|]. split; [reflexivity|].
  unfold FixtureWithLastReleaseApis, last_release_apis_spec.
  apply FixtureWithPrebuiltApis_singleton.
Qed.

End PrebuiltApisFacts.

Section ApexNamePairFacts.
Context `{Ext : Externals}.

Lemma index_0_cons {A : Type} (x : A) (l : list A) :
  index (x :: l) 0 = Returns x.
Proof. reflexivity. Qed.

Lemma index_0_nil {A : Type} : index (@nil A) 0 = Panics (IndexOutOfRange 0 0).
Proof. reflexivity. Qed.

(** C8: with an [ApexInfo] that is for the platform, [apexNamePairFromModule]
    returns platform:<name>.  With one that is not, it reads
    [InApexVariants[0]] unguarded: it returns <InApexVariants[0]>:<name>
    when the list has a first element, and it panics with an index out of
    range exactly when the list is empty. *)
Theorem apexNamePairFromModule_cases (apexInfo : ApexInfo) (module : Module) :
  let result := apexNamePairFromModule (Some (ApexInfoValue apexInfo)) module in
  (IsForPlatform apexInfo = true ->
     result = Returns ("platform:" +:+ Name module)) /\
  (IsForPlatform apexInfo = false ->
     (forall apex rest, InApexVariants apexInfo = apex :: rest ->
        result = Returns (apex +:+ ":" +:+ Name module)) /\
     (InApexVariants apexInfo = [] <->
        result = Panics (IndexOutOfRange 0 0)) /\
     (InApexVariants apexInfo <> [] <->
        exists pair, result = Returns pair)).
Proof.
  simpl. unfold apexNamePairFromModule. split; intros HP; rewrite HP.
  - reflexivity.
  - destruct (InApexVariants apexInfo) as [|apex rest] eqn:HV.
    + rewrite index_0_nil. split; [done|]. split; [done|].
      split; [done|]. by intros [? ?].
    + rewrite index_0_cons. split.
      * intros ? ? [= <- <-]. reflexivity.
      * split; [split; done|]. split; [eauto|done].
Qed.

End ApexNamePairFacts.

(** *** The fake APEX mutator *)

Lemma length_pos_bool {A : Type} (l : list A) :
  (0 <? length l)%nat = bool_decide (l <> []).
Proof. by destruct l. Qed.

(** The mutator makes no call on a module it does not split. *)
Lemma fakeApexMutator_skips (ctx : CtxOracle) :
  ~ has_apex_variants (oracle_module ctx) ->
  calls_of ctx [] fakeApexMutator = ([], Returns tt).
Proof.
  unfold has_apex_variants. intros Hn. simpl.
  destruct (Kind (oracle_module ctx)) eqn:HK; simpl; try done;
    rewrite length_pos_bool;
    (case_bool_decide as HA; [exfalso; apply Hn; auto | done]).
Qed.

(** On a module it splits, the mutator calls [CreateVariations] once and then
    indexes the result at 1. *)
Lemma fakeApexMutator_splits (ctx : CtxOracle) :
  has_apex_variants (oracle_module ctx) ->
  calls_of ctx [] fakeApexMutator =
    match index (oracle_variations ctx [] [EmptyString; "apex1000"]) 1 with
    | Returns m1 =>
        ([CallCreateVariations [EmptyString; "apex1000"];
          CallSetVariationProvider m1 ApexInfoProvider fake_apex_info],
         Returns tt)
    | Panics p => ([CallCreateVariations [EmptyString; "apex1000"]], Panics p)
    end.
Proof.
  unfold has_apex_variants. intros [HK HA]. simpl.
  assert (Hlen : (0 <? length (ApexAvailable (oracle_module ctx)))%nat = true).
  { rewrite length_pos_bool. by apply bool_decide_eq_true. }
  destruct HK as [HK|HK]; rewrite HK; simpl; rewrite Hlen; simpl;
    by destruct (index _ 1).
Qed.

(** C1: on a Library or SdkLibrary with a non-empty ApexAvailable list, and a
    context whose [CreateVariations] returns a variant at index 1, the fake
    APEX mutator calls [CreateVariations] with the two values (empty) and
    apex1000, in this order, and then sets the ApexInfo provider, with
    ApexVariationName apex1000, on the variant at index 1; it sets a provider
    on no other node and makes no other call.  On every other module it makes
    no call at all. *)
Theorem fakeApexMutator_calls (ctx : CtxOracle) :
  (has_apex_variants (oracle_module ctx) ->
   forall m1,
     oracle_variations ctx [] [EmptyString; "apex1000"] !! 1 = Some m1 ->
     calls_of ctx [] fakeApexMutator =
       ([CallCreateVariations [EmptyString; "apex1000"];
         CallSetVariationProvider m1 ApexInfoProvider
           (ApexInfoValue {| ApexVariationName := "apex1000";
                             InApexVariants := [] |})],
        Returns tt) /\
     provider_targets (fst (calls_of ctx [] fakeApexMutator)) = [m1]) /\
  (~ has_apex_variants (oracle_module ctx) ->
   calls_of ctx [] fakeApexMutator = ([], Returns tt)).
Proof.
  split.
  - intros H m1 Hm1. rewrite (fakeApexMutator_splits ctx H).
    unfold index. rewrite Hm1. done.
  - apply fakeApexMutator_skips.
Qed.

(** X13: when [CreateVariations] hands back fewer than two modules, the fake
    APEX mutator panics at [modules[1]] with an index out of range, and it
    has set no provider. *)
Theorem fakeApexMutator_short_result (ctx : CtxOracle) :
  has_apex_variants (oracle_module ctx) ->
  length (oracle_variations ctx [] [EmptyString; "apex1000"]) < 2 ->
  calls_of ctx [] fakeApexMutator =
    ([CallCreateVariations [EmptyString; "apex1000"]],
     Panics (IndexOutOfRange 1
               (length (oracle_variations ctx [] [EmptyString; "apex1000"]))))
  /\ provider_targets (fst (calls_of ctx [] fakeApexMutator)) = [].
Proof.
  intros H Hlen. rewrite (fakeApexMutator_splits ctx H). unfold index.
  rewrite (proj2 (lookup_ge_None _ 1)) by lia. done.
Qed.

Lemma fakeApexMutator_calls_witness :
  calls_of (sample_oracle sample_library) [] fakeApexMutator =
    ([CallCreateVariations [EmptyString; "apex1000"];
      CallSetVariationProvider 8 ApexInfoProvider
        (ApexInfoValue {| ApexVariationName := "apex1000";
                          InApexVariants := [] |})],
     Returns tt) /\
  calls_of (sample_oracle sample_app) [] fakeApexMutator = ([], Returns tt).
Proof.
  split.
  - apply (proj1 (fakeApexMutator_calls (sample_oracle sample_library))).
    + split; [left; reflexivity | discriminate].
    + reflexivity.
  - apply (proj2 (fakeApexMutator_calls (sample_oracle sample_app))).
    intros [[H|H] _]; discriminate H.
Defined.

(** ** The prebuilt api files *)

Section WriteLoops.
Context {A : Type}.
Implicit Types (fs : gmap string (list Byte.byte)) (path : string).

Lemma writes_nil_put_nil :
  writes_nil put_nil (fun p path => path = p).
Proof.
  unfold put_nil. split; [|split].
  - intros fs p path v. destruct (decide (p = path)) as [->|Hne].
    + rewrite lookup_insert_eq. intros [= <-]. by left.
    + rewrite lookup_insert_ne by done. by right.
  - intros fs p path ->. apply lookup_insert_eq.
  - intros fs p path H. destruct (decide (p = path)) as [->|Hne].
    + apply lookup_insert_eq.
    + by rewrite lookup_insert_ne.
Qed.

(** A loop of such steps is such a step: it writes the paths of all its
    rounds. *)
Lemma writes_nil_fold_left
    (F : gmap string (list Byte.byte) -> A -> gmap string (list Byte.byte))
    (P : A -> string -> Prop) :
  writes_nil F P ->
  writes_nil (fun fs l => fold_left F l fs)
    (fun l path => exists a, a ∈ l /\ P a path).
Proof.
  intros (Hs & Hc & Hk).
  assert (Hkeep : forall l fs path,
            fs !! path = Some [] -> fold_left F l fs !! path = Some []).
  { induction l as [|a l IH]; intros fs path H; simpl; [done|].
    apply IH, Hk, H. }
  split; [|split].
  - intros fs l. revert fs.
    induction l as [|a l IH]; intros fs path v H; simpl in H; [by right|].
    destruct (IH _ _ _ H) as [(-> & a' & Hin & HP)|H'].
    + left. split; [done|]. exists a'. split; [|done].
      by apply list_elem_of_further.
    + destruct (Hs _ _ _ _ H') as [(-> & HP)|H'']; [|by right].
      left. split; [done|]. exists a. split; [|done].
      apply list_elem_of_here.
  - intros fs l. revert fs.
    induction l as [|a l IH]; intros fs path (a' & Hin & HP); simpl.
    + by apply elem_of_nil in Hin.
    + apply elem_of_cons in Hin as [->|Hin].
      * apply Hkeep, Hc, HP.
      * apply IH. by exists a'.
  - intros fs l path. apply Hkeep.
Qed.

(** The files of a loop that starts from the empty file system. *)
Lemma writes_nil_from_empty
    (F : gmap string (list Byte.byte) -> A -> gmap string (list Byte.byte))
    (P : A -> string -> Prop) (l : list A) path v :
  writes_nil F P ->
  fold_left F l ∅ !! path = Some v <->
  v = [] /\ exists a, a ∈ l /\ P a path.
Proof.
  intros H. destruct (writes_nil_fold_left F P H) as (Hs & Hc & _). split.
  - intros Hv. destruct (Hs _ _ _ _ Hv) as [?|Hv']; [done|].
    by rewrite lookup_empty in Hv'.
  - intros (-> & HP). by apply Hc.
Qed.

End WriteLoops.

Lemma or_iff_both (P P' Q Q' : Prop) :
  (P <-> P') -> (Q <-> Q') -> (P \/ Q <-> P' \/ Q').
Proof. tauto. Qed.

Lemma writes_nil_iff {A : Type}
    (F : gmap string (list Byte.byte) -> A -> gmap string (list Byte.byte))
    (P Q : A -> string -> Prop) :
  writes_nil F P -> (forall a path, P a path <-> Q a path) -> writes_nil F Q.
Proof.
  intros (Hs & Hc & Hk) HPQ. split; [|split]; [| |done].
  - intros fs a path v H. destruct (Hs _ _ _ _ H) as [(-> & HP)|H'].
    + left. split; [done|]. by apply HPQ.
    + by right.
  - intros fs a path HQ. by apply Hc, HPQ.
Qed.

(** A loop whose body is chosen by the step of an outer loop. *)
Lemma writes_nil_loop {A B : Type}
    (G : A -> gmap string (list Byte.byte) -> B ->
         gmap string (list Byte.byte))
    (P : A -> B -> string -> Prop) (l : list B) :
  (forall a, writes_nil (G a) (P a)) ->
  writes_nil (fun fs a => fold_left (G a) l fs)
    (fun a path => exists b, b ∈ l /\ P a b path).
Proof.
  intros H. split; [|split]; intros fs a path;
    destruct (writes_nil_fold_left (G a) (P a) (H a)) as (Hs & Hc & Hk).
  - intros v. apply Hs.
  - apply Hc.
  - apply Hk.
Qed.

(** Merging a set of empty files into the mock file system. *)
Lemma writes_nil_Merge {A : Type}
    (files : A -> gmap string (list Byte.byte)) (P : A -> string -> Prop) :
  (forall a path v, files a !! path = Some v <-> v = [] /\ P a path) ->
  writes_nil (fun fs a => Merge fs (files a)) P.
Proof.
  intros H. unfold Merge. split; [|split]; intros fs a path.
  - intros v [Hv|(_ & Hv)]%lookup_union_Some_raw; [|by right].
    left. by apply H.
  - intros HP. apply lookup_union_Some_l. by apply H.
  - intros Hfs. apply lookup_union_Some_raw.
    destruct (files a !! path) as [v|] eqn:E; [|by right].
    left. by apply H in E as (-> & _).
Qed.

Lemma map_fold_fold_left {B : Type} (f : string -> list string -> B -> B)
    (b : B) (m : gmap string (list string)) :
  map_fold f b m =
  fold_left (fun acc (entry : string * list string) =>
               f entry.1 entry.2 acc)
    (rev (map_to_list m)) b.
Proof.
  rewrite map_fold_foldr.
  rewrite <- (rev_involutive (map_to_list m)) at 1.
  rewrite fold_left_rev_right.
  generalize (rev (map_to_list m)). intros l. revert b.
  induction l as [|[release modules] l IH]; intros b; simpl; [done|].
  apply IH.
Qed.

(** *** Suffixes of paths *)

Lemma string_length_append (a b : string) :
  String.length (a +:+ b) = String.length a + String.length b.
Proof. induction a as [|c a IH]; simpl; [done|]. by rewrite IH. Qed.

Lemma substring_append_skip (a b : string) (k n : nat) :
  substring (String.length a + k) n (a +:+ b) = substring k n b.
Proof. induction a as [|c a IH]; simpl; [done|]. apply IH. Qed.

(** A suffix no longer than the second part of a string is a suffix of the
    second part. *)
Lemma HasSuffix_append_r (a b suffix : string) :
  String.length suffix <= String.length b ->
  HasSuffix (a +:+ b) suffix = HasSuffix b suffix.
Proof.
  intros Hle. unfold HasSuffix. rewrite string_length_append.
  replace (String.length a + String.length b - String.length suffix)
    with (String.length a + (String.length b - String.length suffix)) by lia.
  rewrite substring_append_skip.
  rewrite (proj2 (Nat.leb_le _ (String.length b))) by done.
  by rewrite (proj2 (Nat.leb_le _ (String.length a + String.length b)))
    by lia.
Qed.

Ltac HasSuffix_of_append :=
  repeat (rewrite HasSuffix_append_r
            by (rewrite ?string_length_append; simpl; lia));
  reflexivity.

Section PrebuiltFilesFacts.
Context `{Ext : Externals}.
Implicit Types (fs : gmap string (list Byte.byte)) (path level lib : string).

Lemma writes_nil_prebuiltApisFilesForLib level (sdkKind : SdkKind) :
  writes_nil (prebuiltApisFilesForLib level sdkKind)
    (fun lib path =>
       path = "prebuilts/sdk/" +:+ level +:+ "/" +:+
              SdkKind_String sdkKind +:+ "/" +:+ lib +:+ ".jar" \/
       (level <> "current" /\
        (path = "prebuilts/sdk/" +:+ level +:+ "/" +:+
                SdkKind_String sdkKind +:+ "/api/" +:+ lib +:+ ".txt" \/
         path = "prebuilts/sdk/" +:+ level +:+ "/" +:+
                SdkKind_String sdkKind +:+ "/api/" +:+ lib +:+
                "-removed.txt"))).
Proof.
  destruct (@writes_nil_put_nil) as (Hs & Hc & Hk).
  unfold prebuiltApisFilesForLib.
  split; [|split]; intros fs lib path; case_decide as Hl.
  - intros v H.
    apply Hs in H as [(-> & ->)|H]; [left; eauto|].
    apply Hs in H as [(-> & ->)|H]; [left; eauto|].
    apply Hs in H as [(-> & ->)|H]; [left; eauto | by right].
  - intros v H. apply Hs in H as [(-> & ->)|H]; [left; eauto | by right].
  - intros [-> | (_ & [-> | ->])].
    + apply Hk, Hk, Hc. reflexivity.
    + apply Hk, Hc. reflexivity.
    + apply Hc. reflexivity.
  - intros [-> | (? & _)]; [|done]. apply Hc. reflexivity.
  - intros H. by apply Hk, Hk, Hk.
  - intros H. by apply Hk.
Qed.

Lemma writes_nil_prebuiltApisFilesForKind level (libs : list string) :
  writes_nil (prebuiltApisFilesForKind level libs)
    (fun sdkKind path =>
       (sdkKind = systemModuleKind sdkKind (ApiLevelForTest level) /\
        path = "prebuilts/sdk/" +:+ level +:+ "/" +:+
               SdkKind_String sdkKind +:+ "/core-for-system-modules.jar") \/
       exists lib,
         lib ∈ libs /\
         (path = "prebuilts/sdk/" +:+ level +:+ "/" +:+
                 SdkKind_String sdkKind +:+ "/" +:+ lib +:+ ".jar" \/
          (level <> "current" /\
           (path = "prebuilts/sdk/" +:+ level +:+ "/" +:+
                   SdkKind_String sdkKind +:+ "/api/" +:+ lib +:+ ".txt" \/
            path = "prebuilts/sdk/" +:+ level +:+ "/" +:+
                   SdkKind_String sdkKind +:+ "/api/" +:+ lib +:+
                   "-removed.txt")))).
Proof.
  destruct (@writes_nil_put_nil) as (Hs & Hc & Hk).
  unfold prebuiltApisFilesForKind.
  split; [|split]; intros fs sdkKind path;
    destruct (writes_nil_fold_left _ _
                (writes_nil_prebuiltApisFilesForLib level sdkKind))
      as (Hfs & Hfc & Hfk).
  - intros v H. apply Hfs in H as [(-> & HP)|H]; [left; eauto|].
    case_decide as Hsys; [|by right].
    apply Hs in H as [(-> & ->)|H]; [left; eauto | by right].
  - intros [(Hsys & ->)|HP].
    + apply Hfk. rewrite decide_True by done. apply Hc. reflexivity.
    + by apply Hfc.
  - intros H. apply Hfk. case_decide; [by apply Hk | done].
Qed.

Lemma writes_nil_prebuiltApisFilesForLevel (modules : list string) :
  writes_nil (prebuiltApisFilesForLevel ("android" :: modules))
    (fun level path => prebuilt_api_file level modules path).
Proof.
  destruct (@writes_nil_put_nil) as (Hs & Hc & Hk).
  unfold prebuiltApisFilesForLevel, prebuilt_api_file.
  split; [|split]; intros fs level path;
    destruct (writes_nil_fold_left _ _
                (writes_nil_prebuiltApisFilesForKind level
                   ("android" :: modules)))
      as (Hfs & Hfc & Hfk).
  - intros v H. apply Hs in H as [(-> & ->)|H]; [left; eauto|].
    assert (Hcore :
      (if decide (level = "current") then
         put_nil
           (fold_left (prebuiltApisFilesForKind level ("android" :: modules))
              [SdkPublic; SdkSystem; SdkModule; SdkSystemServer; SdkTest] fs)
           "prebuilts/sdk/current/core/android.jar"
       else
         fold_left (prebuiltApisFilesForKind level ("android" :: modules))
           [SdkPublic; SdkSystem; SdkModule; SdkSystemServer; SdkTest] fs)
        !! path = Some v) by exact H.
    clear H. case_decide as Hcur.
    + apply Hs in Hcore as [(-> & ->)|H]; [left; eauto|].
      apply Hfs in H as [(-> & HP)|H]; [left; eauto | by right].
    + apply Hfs in Hcore as [(-> & HP)|H]; [left; eauto | by right].
  - intros [-> | [(Hcur & ->) | HP]].
    + apply Hc. reflexivity.
    + apply Hk. rewrite decide_True by done. apply Hc. reflexivity.
    + apply Hk. case_decide; [apply Hk|]; by apply Hfc.
  - intros H. apply Hk. case_decide; [apply Hk|]; by apply Hfk.
Qed.

Lemma prebuiltApisFilesForModules_lookup (apiLevels modules : list string)
    path (contents : list Byte.byte) :
  prebuiltApisFilesForModules apiLevels modules !! path = Some contents <->
  contents = [] /\
  exists level, level ∈ apiLevels /\ prebuilt_api_file level modules path.
Proof.
  unfold prebuiltApisFilesForModules.
  apply (writes_nil_from_empty _
           (fun level path => prebuilt_api_file level modules path)).
  apply writes_nil_prebuiltApisFilesForLevel.
Qed.

(** X1: [prebuiltApisFilesForModules] creates empty files only, and exactly
    these: for each level its framework.aidl; for the level current the core
    android.jar; for each of the five sdk kinds, the core-for-system-modules
    jar when the kind is its own system module kind, and for android and for
    each module a jar and, unless the level is current, the two api text
    files. *)
Theorem prebuiltApisFilesForModules_files (apiLevels modules : list string)
    path (contents : list Byte.byte) :
  prebuiltApisFilesForModules apiLevels modules !! path = Some contents <->
  contents = [] /\
  exists level, level ∈ apiLevels /\ prebuilt_api_file level modules path.
Proof.
  destruct (writes_nil_fold_left _ _
              (writes_nil_prebuiltApisFilesForLevel modules))
    as (Hsound & Hcomplete & _).
  unfold prebuiltApisFilesForModules. split.
  - intros H. apply Hsound in H as [H|H]; [done|].
    by rewrite lookup_empty in H.
  - intros (-> & H). by apply Hcomplete.
Qed.

(** The files of the level current have no api text file among them. *)
Lemma prebuilt_api_file_current (modules : list string) path :
  prebuilt_api_file "current" modules path -> HasSuffix path ".txt" = false.
Proof.
  intros H.
  destruct H as [-> | [(_ & ->) | (sdkKind & _ & [(_ & ->) | H])]];
    [reflexivity | reflexivity | |].
  - HasSuffix_of_append.
  - destruct H as (lib & _ & [-> | (? & _)]); [|done].
    HasSuffix_of_append.
Qed.

Lemma writes_nil_prebuiltExtensionApiFilesForLib level
    (sdkKind : SdkKind) :
  writes_nil (prebuiltExtensionApiFilesForLib level sdkKind)
    (fun lib path =>
       path = "prebuilts/sdk/extensions/" +:+ level +:+ "/" +:+
              SdkKind_String sdkKind +:+ "/api/" +:+ lib +:+ ".txt" \/
       path = "prebuilts/sdk/extensions/" +:+ level +:+ "/" +:+
              SdkKind_String sdkKind +:+ "/api/" +:+ lib +:+
              "-removed.txt").
Proof.
  destruct (@writes_nil_put_nil) as (Hs & Hc & Hk).
  unfold prebuiltExtensionApiFilesForLib.
  split; [|split]; intros fs lib path.
  - intros v H.
    apply Hs in H as [(-> & ->)|H]; [left; eauto|].
    apply Hs in H as [(-> & ->)|H]; [left; eauto | by right].
  - intros [-> | ->].
    + apply Hk, Hc. reflexivity.
    + apply Hc. reflexivity.
  - intros H. by apply Hk, Hk.
Qed.

Lemma writes_nil_prebuiltExtensionApiFilesForLevel (modules : list string) :
  writes_nil
    (fun fs level =>
       fold_left (fun fs sdkKind =>
         fold_left (prebuiltExtensionApiFilesForLib level sdkKind) modules fs)
         [SdkPublic; SdkSystem; SdkModule; SdkSystemServer] fs)
    (fun level path => prebuilt_extension_api_file level modules path).
Proof.
  eapply writes_nil_iff.
  - apply (writes_nil_loop
             (fun level fs sdkKind =>
                fold_left (prebuiltExtensionApiFilesForLib level sdkKind)
                  modules fs)).
    intros level.
    apply (writes_nil_loop
             (fun sdkKind => prebuiltExtensionApiFilesForLib level sdkKind)).
    intros sdkKind. apply writes_nil_prebuiltExtensionApiFilesForLib.
  - intros level path. unfold prebuilt_extension_api_file. simpl. split.
    + intros (sdkKind & Hk & lib & Hl & HP). by exists sdkKind, lib.
    + intros (sdkKind & lib & Hk & Hl & HP). exists sdkKind.
      split; [done|]. by exists lib.
Qed.

Lemma prebuiltExtensionApiFiles_no_modules (extensionLevels : list string) :
  prebuiltExtensionApiFiles extensionLevels [] = ∅.
Proof.
  unfold prebuiltExtensionApiFiles.
  generalize (∅ : gmap string (list Byte.byte)).
  induction extensionLevels as [|level levels IH]; intros fs; simpl; [done|].
  apply IH.
Qed.

Lemma writes_nil_merge_api :
  writes_nil
    (fun fs (entry : string * list string) =>
       Merge fs (prebuiltApisFilesForModules [entry.1] entry.2))
    (fun entry path => prebuilt_api_file entry.1 entry.2 path).
Proof.
  apply (writes_nil_Merge
           (fun entry : string * list string =>
              prebuiltApisFilesForModules [entry.1] entry.2)).
  intros [release modules] path v. simpl.
  rewrite prebuiltApisFilesForModules_lookup.
  apply and_iff_compat_l. split.
  - by intros (level & ->%list_elem_of_singleton & HP).
  - intros HP. exists release. split; [apply list_elem_of_here | done].
Qed.

Lemma writes_nil_merge_extension :
  writes_nil
    (fun fs (entry : string * list string) =>
       Merge fs (prebuiltExtensionApiFiles [entry.1] entry.2))
    (fun entry path => prebuilt_extension_api_file entry.1 entry.2 path).
Proof.
  apply (writes_nil_Merge
           (fun entry : string * list string =>
              prebuiltExtensionApiFiles [entry.1] entry.2)).
  intros [release modules] path v. simpl.
  unfold prebuiltExtensionApiFiles.
  rewrite (writes_nil_from_empty _
             (fun level path =>
                prebuilt_extension_api_file level modules path))
    by apply writes_nil_prebuiltExtensionApiFilesForLevel.
  apply and_iff_compat_l. split.
  - by intros (level & ->%list_elem_of_singleton & HP).
  - intros HP. exists release. split; [apply list_elem_of_here | done].
Qed.

(** The loops of [FixtureWithPrebuiltApisAndExtensions], as the embedding
    runs them, are the loops over the entries of the maps in one order. *)
Lemma mergePrebuiltFiles_map
    (apiLevel2Modules : gmap string (list string))
    (extensionLevel2Modules : option (gmap string (list string))) :
  FixtureWithPrebuiltApisAndExtensions apiLevel2Modules
    extensionLevel2Modules =
  GroupFixturePreparers
    [FixtureAddTextFile "prebuilts/sdk/Android.bp"
       (prebuilt_apis_bp
          (Join (SortedStringKeys apiLevel2Modules)
             (dquote +:+ ", " +:+ dquote)));
     FixtureMergeMockFs
       (mergePrebuiltFiles (rev (map_to_list apiLevel2Modules))
          ((fun m => rev (map_to_list m)) <$> extensionLevel2Modules))].
Proof.
  unfold FixtureWithPrebuiltApisAndExtensions, mergePrebuiltFiles.
  do 3 f_equal. rewrite map_fold_fold_left.
  destruct extensionLevel2Modules as [m|]; simpl; [|done].
  by rewrite map_fold_fold_left.
Qed.

(** X2: for the level current [prebuiltApisFilesForModules] creates no .txt
    file, whatever the modules are called. *)
Theorem prebuiltApisFilesForModules_current_no_txt (modules : list string)
    path :
  is_Some (prebuiltApisFilesForModules ["current"] modules !! path) ->
  HasSuffix path ".txt" = false.
Proof.
  intros [contents H].
  apply prebuiltApisFilesForModules_lookup in H
    as (_ & level & ->%list_elem_of_singleton & H).
  by apply prebuilt_api_file_current in H.
Qed.

(** X3: [prebuiltExtensionApiFiles] creates empty files only, and exactly
    the two api text files of each module, for each extension level and each
    of the four sdk kinds SdkPublic, SdkSystem, SdkModule and
    SdkSystemServer; with no modules it creates nothing. *)
Theorem prebuiltExtensionApiFiles_files
    (extensionLevels modules : list string) path
    (contents : list Byte.byte) :
  (prebuiltExtensionApiFiles extensionLevels modules !! path = Some contents
   <->
   contents = [] /\
   exists level,
     level ∈ extensionLevels /\
     prebuilt_extension_api_file level modules path) /\
  prebuiltExtensionApiFiles extensionLevels [] = ∅.
Proof.
  split.
  - unfold prebuiltExtensionApiFiles.
    apply (writes_nil_from_empty _
             (fun level path =>
                prebuilt_extension_api_file level modules path)).
    apply writes_nil_prebuiltExtensionApiFilesForLevel.
  - apply prebuiltExtensionApiFiles_no_modules.
Qed.

(** The two loops of [FixtureWithPrebuiltApisAndExtensions], in any order of
    the entries, write the files of the releases. *)
Lemma mergePrebuiltFiles_files
    (apiEntries : list (string * list string))
    (extensionEntries : option (list (string * list string))) path
    (contents : list Byte.byte) :
  mergePrebuiltFiles apiEntries extensionEntries !! path = Some contents <->
  contents = [] /\
  ((exists release modules,
      (release, modules) ∈ apiEntries /\
      prebuilt_api_file release modules path) \/
   (exists entries release modules,
      extensionEntries = Some entries /\
      (release, modules) ∈ entries /\
      prebuilt_extension_api_file release modules path)).
Proof.
  unfold mergePrebuiltFiles.
  pose proof (writes_nil_from_empty _ _ apiEntries path contents
                writes_nil_merge_api) as Hapi.
  destruct extensionEntries as [entries|].
  - destruct (writes_nil_fold_left _ _ writes_nil_merge_extension)
      as (Hs & Hc & Hk).
    split.
    + intros H. apply Hs in H as [(-> & ([release modules] & Hin & HP))|H].
      * split; [done|]. right. by exists entries, release, modules.
      * apply Hapi in H as (-> & ([release modules] & Hin & HP)).
        split; [done|]. left. by exists release, modules.
    + intros (-> & [(release & modules & Hin & HP) |
                    (entries' & release & modules & [= <-] & Hin & HP)]).
      * apply Hk, Hapi. split; [done|]. by exists (release, modules).
      * apply Hc. by exists (release, modules).
  - rewrite Hapi. split.
    + intros (-> & ([release modules] & Hin & HP)).
      split; [done|]. left. by exists release, modules.
    + intros (-> & [(release & modules & Hin & HP) | (? & ? & ? & ? & _)]);
        [|done].
      split; [done|]. by exists (release, modules).
Qed.

(** The files that the two loops of [FixtureWithPrebuiltApisAndExtensions]
    write when they run over the entries of the maps in any order. *)
Lemma mergePrebuiltFiles_Permutation
    (apiLevel2Modules : gmap string (list string))
    (extensionLevel2Modules : option (gmap string (list string)))
    (apiEntries : list (string * list string))
    (extensionEntries : option (list (string * list string)))
    path (contents : list Byte.byte) :
  apiEntries ≡ₚ map_to_list apiLevel2Modules ->
  option_Forall2 (fun entries m => entries ≡ₚ map_to_list m)
    extensionEntries extensionLevel2Modules ->
  mergePrebuiltFiles apiEntries extensionEntries !! path = Some contents <->
  contents = [] /\
  ((exists release modules,
      apiLevel2Modules !! release = Some modules /\
      prebuilt_api_file release modules path) \/
   (exists m release modules,
      extensionLevel2Modules = Some m /\
      m !! release = Some modules /\
      prebuilt_extension_api_file release modules path)).
Proof.
  intros Hp Hq. rewrite mergePrebuiltFiles_files.
  apply and_iff_compat_l, or_iff_both.
  - split; intros (release & modules & Hin & HP);
      exists release, modules; (split; [|done]).
    + apply elem_of_map_to_list. by rewrite <- Hp.
    + rewrite Hp. by apply elem_of_map_to_list.
  - destruct Hq as [entries m Hq|].
    + split.
      * intros (? & release & modules & [= <-] & Hin & HP).
        exists m, release, modules. split; [done|]. split; [|done].
        apply elem_of_map_to_list. by rewrite <- Hq.
      * intros (? & release & modules & [= <-] & Hin & HP).
        exists entries, release, modules. split; [done|]. split; [|done].
        rewrite Hq. by apply elem_of_map_to_list.
    + split; intros (? & ? & ? & ? & _); done.
Qed.

Lemma map_to_list_rev_entries
    (extensionLevel2Modules : option (gmap string (list string))) :
  option_Forall2 (fun entries m => entries ≡ₚ map_to_list m)
    ((fun m => rev (map_to_list m)) <$> extensionLevel2Modules)
    extensionLevel2Modules.
Proof.
  destruct extensionLevel2Modules as [m|]; constructor.
  symmetry. apply Permutation_rev.
Qed.

(** X4: the preparer of [FixtureWithPrebuiltApisAndExtensions] does not
    depend on the order in which the two [range] loops run over the entries
    of their maps: in whatever order the releases are merged, the mock file
    system is the same, and it holds, as empty files, exactly the prebuilt
    api files of the api levels and the extension api files of the extension
    levels. *)
Theorem FixtureWithPrebuiltApisAndExtensions_any_order
    (apiLevel2Modules : gmap string (list string))
    (extensionLevel2Modules : option (gmap string (list string)))
    (apiEntries : list (string * list string))
    (extensionEntries : option (list (string * list string))) :
  apiEntries ≡ₚ map_to_list apiLevel2Modules ->
  option_Forall2 (fun entries m => entries ≡ₚ map_to_list m)
    extensionEntries extensionLevel2Modules ->
  exists bp mockFS,
    FixtureWithPrebuiltApisAndExtensions apiLevel2Modules
      extensionLevel2Modules =
      GroupFixturePreparers
        [FixtureAddTextFile "prebuilts/sdk/Android.bp" bp;
         FixtureMergeMockFs mockFS] /\
    mockFS = mergePrebuiltFiles apiEntries extensionEntries /\
    forall path contents,
      mockFS !! path = Some contents <->
      contents = [] /\
      ((exists release modules,
          apiLevel2Modules !! release = Some modules /\
          prebuilt_api_file release modules path) \/
       (exists m release modules,
          extensionLevel2Modules = Some m /\
          m !! release = Some modules /\
          prebuilt_extension_api_file release modules path)).
Proof.
  intros Hapi Hext.
  assert (Heq : mergePrebuiltFiles (rev (map_to_list apiLevel2Modules))
                  ((fun m => rev (map_to_list m)) <$>
                     extensionLevel2Modules) =
                mergePrebuiltFiles apiEntries extensionEntries).
  { apply map_eq. intros path. apply option_eq. intros contents.
    rewrite (mergePrebuiltFiles_Permutation apiLevel2Modules
               extensionLevel2Modules apiEntries extensionEntries)
      by done.
    apply mergePrebuiltFiles_Permutation.
    - symmetry. apply Permutation_rev.
    - apply map_to_list_rev_entries. }
  eexists _, (mergePrebuiltFiles apiEntries extensionEntries).
  split; [|split].
  - rewrite <- Heq. apply mergePrebuiltFiles_map.
  - reflexivity.
  - intros path contents. by apply mergePrebuiltFiles_Permutation.
Qed.

(** X5: extension levels that list no module add nothing: with an
    extensions map whose module lists are all empty (among them the empty
    map), the preparer of [FixtureWithPrebuiltApisAndExtensions] is the one
    built with a nil extensions map. *)
Theorem FixtureWithPrebuiltApisAndExtensions_no_extension_modules
    (apiLevel2Modules extensionLevel2Modules : gmap string (list string)) :
  map_Forall (fun _ modules => modules = []) extensionLevel2Modules ->
  FixtureWithPrebuiltApisAndExtensions apiLevel2Modules
    (Some extensionLevel2Modules) =
  FixtureWithPrebuiltApisAndExtensions apiLevel2Modules None.
Proof.
  intros Hnil. unfold FixtureWithPrebuiltApisAndExtensions. do 4 f_equal.
  generalize (map_fold
    (fun release modules fs =>
       Merge fs (prebuiltApisFilesForModules [release] modules))
    (∅ : gmap string (list Byte.byte)) apiLevel2Modules).
  intros fs. rewrite map_fold_foldr.
  assert (H : Forall (fun entry : string * list string => entry.2 = [])
                (map_to_list extensionLevel2Modules)).
  { apply Forall_forall. intros [release modules] Hin. simpl.
    apply (Hnil release modules). by apply elem_of_map_to_list. }
  induction H as [|[release modules] l Hm _ IH]; simpl; [done|].
  simpl in Hm. rewrite Hm, prebuiltExtensionApiFiles_no_modules.
  unfold Merge. by rewrite (left_id_L ∅ (∪)).
Qed.

(** X6: a release map that holds current alone gives a mock file system
    without any .txt file, as the comment on
    [PrepareForTestWithPrebuiltsOfCurrentApi] says; every release other than
    current brings the public api file of android. *)
Theorem FixtureWithPrebuiltApis_txt_files
    (release2Modules : gmap string (list string)) :
  exists bp mockFS,
    FixtureWithPrebuiltApis release2Modules =
      GroupFixturePreparers
        [FixtureAddTextFile "prebuilts/sdk/Android.bp" bp;
         FixtureMergeMockFs mockFS] /\
    (forall release modules,
       release2Modules !! release = Some modules ->
       release <> "current" ->
       mockFS !! ("prebuilts/sdk/" +:+ release +:+ "/" +:+
                  SdkKind_String SdkPublic +:+ "/api/android.txt") =
         Some []) /\
    ((forall release,
        is_Some (release2Modules !! release) -> release = "current") ->
     forall path, is_Some (mockFS !! path) -> HasSuffix path ".txt" = false).
Proof.
  eexists _, _. split; [apply (mergePrebuiltFiles_map release2Modules None)|].
  assert (Hfiles := fun path contents =>
    mergePrebuiltFiles_Permutation release2Modules None
      (rev (map_to_list release2Modules)) None path contents
      (Permutation_sym (Permutation_rev _)) (None_Forall2 _)).
  simpl. split.
  - intros release modules Hr Hne. apply Hfiles. split; [done|].
    left. exists release, modules. split; [done|].
    right; right. exists SdkPublic. split; [apply list_elem_of_here|].
    right. exists "android". split; [apply list_elem_of_here|].
    right. split; [done|]. by left.
  - intros Hcur path [contents H].
    apply Hfiles in H
      as (_ & [(release & modules & Hr & HP) | (? & ? & ? & ? & _)]);
      [|done].
    rewrite (Hcur release) in HP by eauto.
    by apply prebuilt_api_file_current in HP.
Qed.

End PrebuiltFilesFacts.

(** ** The ART boot jars *)

Section ArtBootJarsFacts.
Context `{Ext : Externals}.

Lemma prefix_cons (c d : ascii) (a b : string) :
  String.prefix (String c a) (String d b) =
  if ascii_dec c d then String.prefix a b else false.
Proof. reflexivity. Qed.

Lemma append_cons (c : ascii) (a b : string) :
  String c a +:+ b = String c (a +:+ b).
Proof. reflexivity. Qed.

Lemma append_empty (b : string) : EmptyString +:+ b = b.
Proof. reflexivity. Qed.

Lemma string_append_assoc (a b c : string) :
  a +:+ b +:+ c = (a +:+ b) +:+ c.
Proof.
  induction a as [|x a IH]; [done|]. by rewrite !append_cons, IH.
Qed.

Lemma prefix_append (a rest : string) : String.prefix a (a +:+ rest) = true.
Proof.
  induction a as [|c a IH]; [by destruct rest|].
  rewrite append_cons, prefix_cons. by destruct (ascii_dec c c).
Qed.

Lemma has_colon_head (c : ascii) (rest : string) :
  has_colon (String c rest) = false -> c <> ":"%char.
Proof.
  simpl. intros H -> . by rewrite Ascii.eqb_refl in H.
Qed.

Lemma has_colon_tail (c : ascii) (rest : string) :
  has_colon (String c rest) = false -> has_colon rest = false.
Proof. simpl. by intros [_ ?]%orb_false_elim. Qed.

(** Of two names without a colon, each followed by a colon, one is a prefix
    of the other only if they are the same name. *)
Lemma prefix_append_colon (a apex name : string) :
  has_colon a = false -> has_colon apex = false ->
  String.prefix (a +:+ ":") (apex +:+ ":" +:+ name) = true -> a = apex.
Proof.
  revert apex. induction a as [|c a IH]; intros [|d apex] Ha Hx;
    rewrite ?append_empty, ?append_cons, ?prefix_cons.
  - done.
  - destruct (ascii_dec ":" d) as [<-|]; [|done].
    by apply has_colon_head in Hx.
  - destruct (ascii_dec c ":") as [->|]; [|done].
    by apply has_colon_head in Ha.
  - destruct (ascii_dec c d) as [->|]; [|done].
    intros H. f_equal.
    apply IH; [by eapply has_colon_tail | by eapply has_colon_tail | done].
Qed.

(** X7: when the names of the ART apexes hold no colon, a boot jar written
    apex:name, for an apex without a colon, goes to [FixtureSetArtBootJars]
    exactly when it is among the boot jars and its apex is one of
    [artApexNames]: an apex whose name only starts with the name of an ART
    apex is not taken for one. *)
Theorem FixtureConfigureBootJars_art_apex (bootJars : list string)
    (apex name : string) :
  Forall (fun artApexName => has_colon artApexName = false) artApexNames ->
  has_colon apex = false ->
  exists setVariables artBootJars,
    FixtureConfigureBootJars bootJars =
      GroupFixturePreparers
        [FixtureModifyProductVariables setVariables;
         FixtureSetBootJars bootJars;
         FixtureSetArtBootJars artBootJars;
         PrepareForTestWithFakeDex2oatd] /\
    (apex +:+ ":" +:+ name ∈ artBootJars <->
     apex +:+ ":" +:+ name ∈ bootJars /\ apex ∈ artApexNames).
Proof.
  intros Hnames Hapex. eexists _, _. split; [reflexivity|].
  rewrite collectArtBootJars_filter, list_elem_of_In, filter_In,
    <- list_elem_of_In, in_art_apex_true.
  apply and_iff_compat_l. split.
  - intros (a & Hin & Hp). unfold HasPrefix in Hp.
    apply prefix_append_colon in Hp; [by subst | | done].
    by apply (proj1 (Forall_forall _ _) Hnames).
  - intros Hin. exists apex. split; [done|]. unfold HasPrefix.
    rewrite (string_append_assoc apex ":" name).
    apply prefix_append.
Qed.

(** X8: the ART boot jars of a list of boot jars that is put together from
    two lists are those of the first followed by those of the second;
    filtering the ART boot jars again changes nothing; and when there is no
    ART apex, no jar is an ART boot jar. *)
Theorem collectArtBootJars_compose (bootJars moreBootJars : list string) :
  collectArtBootJars (bootJars ++ moreBootJars) =
    (collectArtBootJars bootJars ++ collectArtBootJars moreBootJars)%list /\
  collectArtBootJars (collectArtBootJars bootJars) =
    collectArtBootJars bootJars /\
  (artApexNames = [] -> collectArtBootJars bootJars = []).
Proof.
  rewrite !collectArtBootJars_filter. split; [apply List.filter_app|].
  split.
  - induction bootJars as [|j js IH]; simpl; [done|].
    destruct (in_art_apex j) eqn:E; simpl; [|done]. by rewrite E, IH.
  - intros Hnil. unfold in_art_apex. rewrite Hnil. simpl.
    by induction bootJars.
Qed.

(** The two closures that [FixtureConfigureBootJars] and
    [FixtureConfigureApexBootJars] hand to [FixtureModifyProductVariables]
    write different variables: applied in either order they leave BootJars
    as the configured list of the boot jars and ApexBootJars as that of the
    apex boot jars. *)
Lemma FixtureConfigure_boot_jars_commute (bootJars apexBootJars : list string) :
  exists setBootJars setApexBootJars others others',
    FixtureConfigureBootJars bootJars =
      GroupFixturePreparers
        (FixtureModifyProductVariables setBootJars :: others) /\
    FixtureConfigureApexBootJars apexBootJars =
      GroupFixturePreparers
        (FixtureModifyProductVariables setApexBootJars ::
         FixtureSetApexBootJars apexBootJars :: others') /\
    forall variables,
      setBootJars (setApexBootJars variables) =
        setApexBootJars (setBootJars variables) /\
      setBootJars (setApexBootJars variables) =
        {| BootJars := Some (CreateTestConfiguredJarList bootJars);
           ApexBootJars :=
             Some (CreateTestConfiguredJarList apexBootJars) |}.
Proof. eexists _, _, _, _. split; [reflexivity|]. split; [reflexivity|done]. Qed.

End ArtBootJarsFacts.

(** ** The legacy core platform api lookup *)

Section LegacyLookupFacts.
Context `{Ext : Externals}.

(** X9: [FixtureUseLegacyCorePlatformApi] returns exactly when the lookup
    key is not set yet or is set to the same set of names; the config it
    leaves has the key set to the names and every other key of the
    once-cache as before.  It panics exactly when the key is set to another
    value, and its message names the wanted and the cached value. *)
Theorem useLegacyCorePlatformApi_outcome (moduleNames : list string)
    (config : Config) :
  let lookup := StringSetValue (list_to_set moduleNames) in
  match useLegacyCorePlatformApi moduleNames config with
  | Returns config' =>
      (onceCache config !! legacyCorePlatformApiLookupKey = None \/
       onceCache config !! legacyCorePlatformApiLookupKey = Some lookup) /\
      onceCache config' =
        <[legacyCorePlatformApiLookupKey := lookup]> (onceCache config)
  | Panics p =>
      exists cached,
        onceCache config !! legacyCorePlatformApiLookupKey = Some cached /\
        cached <> lookup /\
        p = PanicErrorf
              "attempting to set legacyCorePlatformApiLookupKey to %q but it has already been set to %q"
              [lookup; cached]
  end.
Proof.
  simpl. unfold useLegacyCorePlatformApi, Once.
  destruct (onceCache config !! legacyCorePlatformApiLookupKey)
    as [cached|] eqn:E.
  - case_decide as Hc.
    + subst cached. split; [by right|]. by rewrite insert_id.
    + by exists cached.
  - rewrite decide_True by done. split; [by left | done].
Qed.

(** X10: the preparer of [FixtureUseLegacyCorePlatformApi] depends on the set
    of the names only: two lists with the same names, in any order and with
    any repetitions, give the same outcome on every config. *)
Theorem useLegacyCorePlatformApi_names_as_set
    (moduleNames moduleNames' : list string) (config : Config) :
  moduleNames ⊆ moduleNames' -> moduleNames' ⊆ moduleNames ->
  useLegacyCorePlatformApi moduleNames config =
  useLegacyCorePlatformApi moduleNames' config.
Proof.
  intros H1 H2.
  assert (Hs : (list_to_set moduleNames : gset string) =
               list_to_set moduleNames').
  { apply set_eq. intros n. rewrite !elem_of_list_to_set. split; auto. }
  unfold useLegacyCorePlatformApi. by rewrite Hs.
Qed.

End LegacyLookupFacts.

(** ** The apex:name pairs *)

Section ApexNamePairsMore.
Context `{Ext : Externals}.

Lemma ApexNamePairs_loop_panic (providerOf : Module -> option ProviderValue)
    (modules : list Module) (p : GoPanic) :
  fold_left (fun (pairs : GoResult (list string)) (module : Module) =>
               match pairs with
               | Returns pairs =>
                   match apexNamePairFromModule (providerOf module) module with
                   | Returns apexName => Returns (pairs ++ [apexName])%list
                   | Panics p => Panics p
                   end
               | Panics p => Panics p
               end)
    modules (Panics p)
  = Panics p.
Proof. induction modules as [|m modules IH]; simpl; [done | apply IH]. Qed.

Lemma ApexNamePairs_loop_Returns
    (providerOf : Module -> option ProviderValue) (modules : list Module)
    (acc pairs : list string) :
  fold_left (fun (pairs : GoResult (list string)) (module : Module) =>
               match pairs with
               | Returns pairs =>
                   match apexNamePairFromModule (providerOf module) module with
                   | Returns apexName => Returns (pairs ++ [apexName])%list
                   | Panics p => Panics p
                   end
               | Panics p => Panics p
               end)
    modules (Returns acc)
  = Returns pairs ->
  exists new,
    pairs = (acc ++ new)%list /\
    Forall2 (fun module apexName =>
               apexNamePairFromModule (providerOf module) module =
                 Returns apexName)
      modules new.
Proof.
  revert acc. induction modules as [|m modules IH]; intros acc; simpl.
  - intros [= <-]. exists []. by rewrite app_nil_r.
  - destruct (apexNamePairFromModule (providerOf m) m) as [apexName|p] eqn:E.
    + intros (new & -> & HF)%IH. exists (apexName :: new).
      rewrite <- app_assoc. split; [done|]. by constructor.
    + by rewrite ApexNamePairs_loop_panic.
Qed.

(** X11: [ApexNamePairsFromModules] returns a list exactly when
    [apexNamePairFromModule] returns for every module, and the list then
    holds the pairs of the modules, one for each and in their order. *)
Theorem ApexNamePairsFromModules_Returns
    (providerOf : Module -> option ProviderValue) (modules : list Module)
    (pairs : list string) :
  ApexNamePairsFromModules providerOf modules = Returns pairs <->
  Forall2 (fun module apexName =>
             apexNamePairFromModule (providerOf module) module =
               Returns apexName)
    modules pairs.
Proof.
  unfold ApexNamePairsFromModules. split.
  - by intros (new & -> & HF)%ApexNamePairs_loop_Returns.
  - intros HF.
    assert (H : forall acc,
      fold_left (fun (pairs : GoResult (list string)) (module : Module) =>
                   match pairs with
                   | Returns pairs =>
                       match apexNamePairFromModule (providerOf module)
                               module with
                       | Returns apexName =>
                           Returns (pairs ++ [apexName])%list
                       | Panics p => Panics p
                       end
                   | Panics p => Panics p
                   end)
        modules (Returns acc)
      = Returns (acc ++ pairs)%list).
    { induction HF as [|m apexName modules pairs Hm _ IH]; intros acc; simpl.
      - by rewrite app_nil_r.
      - by rewrite Hm, IH, <- app_assoc. }
    apply H.
Qed.

(** X12: when [apexNamePairFromModule] panics on a module and returns for
    the modules before it, [ApexNamePairsFromModules] panics with that panic
    and returns no pair, whatever modules follow. *)
Theorem ApexNamePairsFromModules_first_panic
    (providerOf : Module -> option ProviderValue)
    (front : list Module) (module : Module) (rest : list Module)
    (pairs : list string) (p : GoPanic) :
  ApexNamePairsFromModules providerOf front = Returns pairs ->
  apexNamePairFromModule (providerOf module) module = Panics p ->
  ApexNamePairsFromModules providerOf (front ++ module :: rest) = Panics p.
Proof.
  unfold ApexNamePairsFromModules. intros Hfront Hm.
  rewrite fold_left_app, Hfront. simpl. rewrite Hm.
  apply ApexNamePairs_loop_panic.
Qed.

End ApexNamePairsMore.

(** ** The fake APEX mutator, on every module and context *)

Ltac call_cases Hin :=
  repeat (apply elem_of_cons in Hin as [Hin|Hin]; [try discriminate Hin|]);
  try (by apply elem_of_nil in Hin).

(** X14: whatever the module and whatever [CreateVariations] answers, the
    fake APEX mutator makes at most two calls; it never adds a dependency and
    never sets a provider on the module it visits; it calls
    [CreateVariations] with no other values than (empty) and apex1000; it
    sets no other provider than the ApexInfo provider of apex1000, on the
    variant at index 1; and it panics only with an index out of range at
    index 1, when [CreateVariations] has returned fewer than two variants. *)
Theorem fakeApexMutator_never (ctx : CtxOracle) :
  let calls := fst (calls_of ctx [] fakeApexMutator) in
  let result := snd (calls_of ctx [] fakeApexMutator) in
  let variants := oracle_variations ctx [] [EmptyString; "apex1000"] in
  length calls <= 2 /\
  (forall tag name, CallAddDependency tag name ∉ calls) /\
  (forall provider value, CallSetProvider provider value ∉ calls) /\
  (forall values,
     CallCreateVariations values ∈ calls ->
     values = [EmptyString; "apex1000"] /\
     has_apex_variants (oracle_module ctx)) /\
  (forall module provider value,
     CallSetVariationProvider module provider value ∈ calls ->
     provider = ApexInfoProvider /\ value = fake_apex_info /\
     variants !! 1 = Some module) /\
  (forall p,
     result = Panics p ->
     p = IndexOutOfRange 1 (length variants) /\ length variants < 2).
Proof.
  cbv zeta. destruct (decide (has_apex_variants (oracle_module ctx))) as [H|H].
  - rewrite (fakeApexMutator_splits ctx H). unfold index.
    destruct (oracle_variations ctx [] [EmptyString; "apex1000"] !! 1)
      as [m1|] eqn:E; cbn [fst snd length].
    + split; [lia|]. split; [|split; [|split; [|split]]].
      * intros tag name Hin. call_cases Hin.
      * intros provider value Hin. call_cases Hin.
      * intros values Hin. call_cases Hin. by simplify_eq.
      * intros module provider value Hin. call_cases Hin. by simplify_eq.
      * done.
    + apply lookup_ge_None in E.
      split; [lia|]. split; [|split; [|split; [|split]]].
      * intros tag name Hin. call_cases Hin.
      * intros provider value Hin. call_cases Hin.
      * intros values Hin. call_cases Hin. by simplify_eq.
      * intros module provider value Hin. call_cases Hin.
      * intros p [= <-]. split; [done | lia].
  - rewrite (fakeApexMutator_skips ctx H). cbn [fst snd length].
    split; [lia|]. split; [|split; [|split; [|split]]].
    + intros tag name Hin. call_cases Hin.
    + intros provider value Hin. call_cases Hin.
    + intros values Hin. call_cases Hin.
    + intros module provider value Hin. call_cases Hin.
    + done.
Qed.

(** ** CheckHiddenAPIRuleInputs *)

Lemma starts_with_space_append (a b b' : string) :
  starts_with_space b = starts_with_space b' ->
  starts_with_space (a +:+ b) = starts_with_space (a +:+ b').
Proof. by destruct a. Qed.

(** Inside a run of white space, more white space is skipped. *)
Lemma replaceNewlineSpace_skip (indentation rest : string) :
  forallb is_regexp_space (list_ascii_of_string indentation) = true ->
  replaceNewlineSpace true (indentation +:+ rest) =
  replaceNewlineSpace true rest.
Proof.
  induction indentation as [|c indentation IH]; [done|].
  cbn [list_ascii_of_string forallb]. intros [Hc Hi]%andb_prop.
  rewrite append_cons. cbn [replaceNewlineSpace]. rewrite Hc. simpl.
  by apply IH.
Qed.

(** In front of a character that is no white space, a run has ended. *)
Lemma replaceNewlineSpace_run_end (rest : string) :
  starts_with_space rest = false ->
  replaceNewlineSpace true rest = replaceNewlineSpace false rest.
Proof.
  destruct rest as [|c rest]; [done|]. cbn [starts_with_space].
  intros Hc. cbn [replaceNewlineSpace]. by rewrite Hc.
Qed.

Lemma replaceNewlineSpace_indentation (inMatch : bool)
    (front indentation rest : string) :
  forallb is_regexp_space (list_ascii_of_string indentation) = true ->
  replaceNewlineSpace inMatch
    (front +:+ String "010" EmptyString +:+ indentation +:+ rest) =
  replaceNewlineSpace inMatch (front +:+ String "010" EmptyString +:+ rest).
Proof.
  intros Hi. revert inMatch.
  induction front as [|c front IH]; intros inMatch.
  - rewrite !append_empty, !append_cons, !append_empty.
    cbn [replaceNewlineSpace].
    assert (Hnl : is_regexp_space "010" = true) by reflexivity.
    rewrite Hnl, andb_true_r. cbn [Ascii.eqb Bool.eqb andb].
    destruct inMatch; cbn [andb].
    + by apply replaceNewlineSpace_skip.
    + destruct indentation as [|d indentation]; [done|].
      assert (Hd : is_regexp_space d = true).
      { cbn [list_ascii_of_string forallb] in Hi.
        by apply andb_prop in Hi as [? _]. }
      rewrite append_cons. cbn [starts_with_space]. rewrite Hd.
      rewrite <- append_cons, replaceNewlineSpace_skip by done.
      destruct (starts_with_space rest) eqn:Hr; [done|].
      by rewrite replaceNewlineSpace_run_end.
  - rewrite !(append_cons c front). cbn [replaceNewlineSpace].
    rewrite (starts_with_space_append front
               (String "010" EmptyString +:+ indentation +:+ rest)
               (String "010" EmptyString +:+ rest)) by done.
    by rewrite !IH.
Qed.

(** The replacement leaves no newline that is followed by white space, so a
    second replacement changes nothing. *)
Lemma replaceNewlineSpace_idempotent (inMatch : bool) (s : string) :
  replaceNewlineSpace false (replaceNewlineSpace inMatch s) =
  replaceNewlineSpace inMatch s /\
  (inMatch = true ->
   starts_with_space (replaceNewlineSpace inMatch s) = false).
Proof.
  revert inMatch. induction s as [|c s IH]; intros inMatch; [done|].
  cbn [replaceNewlineSpace].
  destruct (inMatch && is_regexp_space c) eqn:E1.
  { apply andb_prop in E1 as [-> _]. apply IH. }
  destruct (Ascii.eqb c "010" && starts_with_space s) eqn:E2.
  - split.
    + cbn [replaceNewlineSpace andb].
      rewrite (proj2 (IH true)) by done. rewrite andb_false_r.
      f_equal. apply IH.
    + intros ->. apply andb_prop in E2 as [->%Ascii.eqb_eq _]. done.
  - split.
    + cbn [replaceNewlineSpace andb].
      assert (E3 : Ascii.eqb c "010" &&
                   starts_with_space (replaceNewlineSpace false s) = false).
      { destruct (Ascii.eqb c "010"); [|done]. simpl in *.
        destruct s as [|d s]; [done|]. cbn [starts_with_space] in E2.
        cbn [replaceNewlineSpace andb].
        destruct (Ascii.eqb d "010" && starts_with_space s) eqn:E4.
        - apply andb_prop in E4 as [->%Ascii.eqb_eq _]. done.
        - cbn [starts_with_space]. done. }
      rewrite E3. f_equal. apply IH.
    + intros ->. cbn [andb] in E1. cbn [starts_with_space]. done.
Qed.

Section HiddenAPIRuleInputsFacts.
Context {Path : Type}.
Variable TrimSpace : string -> string.
Variable SortedUniquePaths : list Path -> list Path.
Variable RelativeToTopStrings : list Path -> list string.

(** X18: [CheckHiddenAPIRuleInputs] does not look at the indentation of the
    lines of [expected]: white space (blank lines among it) put after any
    newline of [expected] changes neither its verdict nor the message it
    reports; and an [expected] text that has been through the replacement
    already is read as it is. *)
Theorem CheckHiddenAPIRuleInputs_indentation (message : string)
    (front indentation rest : string)
    (hiddenAPIRule : TestingBuildParams Path) :
  forallb is_regexp_space (list_ascii_of_string indentation) = true ->
  CheckHiddenAPIRuleInputs TrimSpace SortedUniquePaths RelativeToTopStrings
    message (front +:+ String "010" EmptyString +:+ indentation +:+ rest)
    hiddenAPIRule =
  CheckHiddenAPIRuleInputs TrimSpace SortedUniquePaths RelativeToTopStrings
    message (front +:+ String "010" EmptyString +:+ rest) hiddenAPIRule /\
  CheckHiddenAPIRuleInputs TrimSpace SortedUniquePaths RelativeToTopStrings
    message (replaceNewlineSpace false rest) hiddenAPIRule =
  CheckHiddenAPIRuleInputs TrimSpace SortedUniquePaths RelativeToTopStrings
    message rest hiddenAPIRule.
Proof.
  intros Hi. unfold CheckHiddenAPIRuleInputs.
  rewrite (replaceNewlineSpace_indentation false front indentation rest)
    by done.
  by rewrite (proj1 (replaceNewlineSpace_idempotent false rest)).
Qed.

End HiddenAPIRuleInputsFacts.

(** ** Boot image configs *)

Section BootImageConfigFacts.
Context {OtherFields : Type}.
Implicit Types (config : gmap string Pointer)
  (configs : nat -> bootImageConfig OtherFields).

(** X16: [FixtureSetBootImageInstallDirOnDevice] dereferences what the map
    of boot image configs holds under the name.  When the map has no config
    of that name, or a nil one, the modifier panics on the nil pointer.
    Otherwise it sets [installDirOnDevice] of the config the name points to
    and changes nothing else: the other fields of that config and every
    other config are as before; a name that points to the same config sees
    the new directory. *)
Theorem FixtureSetBootImageInstallDirOnDevice_outcome
    (name installDir : string) config configs :
  match FixtureSetBootImageInstallDirOnDevice name installDir
          config configs with
  | NilPointerDereference =>
      config !! name = None \/ config !! name = Some nil_pointer
  | Done configs' =>
      exists address,
        config !! name = Some (pointer_to address) /\
        installDirOnDevice (configs' address) = installDir /\
        otherFields (configs' address) = otherFields (configs address) /\
        (forall a, a <> address -> configs' a = configs a) /\
        (forall name',
           config !! name' = Some (pointer_to address) ->
           exists address',
             bootImageConfigNamed config name' = pointer_to address' /\
             installDirOnDevice (configs' address') = installDir)
  end.
Proof.
  unfold FixtureSetBootImageInstallDirOnDevice, FixtureModifyBootImageConfig,
    bootImageConfigNamed.
  destruct (config !! name) as [[|address]|] eqn:E; simpl; [by right| |by left].
  exists address. split; [done|].
  destruct (decide (address = address)) as [_|Hne]; [|by destruct Hne].
  split; [done|]. split; [done|]. split.
  - intros a Ha. by destruct (decide (a = address)).
  - intros name' ->. exists address. split; [done|].
    destruct (decide (address = address)) as [_|Hne]; [done|by destruct Hne].
Qed.

(** X17: of two [FixtureSetBootImageInstallDirOnDevice] modifiers for the
    same name, run one after the other, the later one decides: the configs
    are those that the later modifier alone leaves. *)
Theorem FixtureSetBootImageInstallDirOnDevice_last_wins
    (name installDir installDir' : string) config configs configs' :
  FixtureSetBootImageInstallDirOnDevice name installDir config configs =
    Done configs' ->
  exists configs1 configs2,
    FixtureSetBootImageInstallDirOnDevice name installDir' config configs' =
      Done configs2 /\
    FixtureSetBootImageInstallDirOnDevice name installDir' config configs =
      Done configs1 /\
    forall a, configs2 a = configs1 a.
Proof.
  unfold FixtureSetBootImageInstallDirOnDevice, FixtureModifyBootImageConfig,
    bootImageConfigNamed.
  destruct (config !! name) as [[|address]|]; simpl; [done| |done].
  intros [= <-]. eexists _, _. split; [reflexivity|]. split; [reflexivity|].
  intros a. cbv beta. by destruct (decide (a = address)).
Qed.

End BootImageConfigFacts.

(** ** Lemmas on the provider store and the variation engine *)

Section ProviderStore.
Implicit Types (g : Graph) (p q : ProviderId) (v w : ProviderValue).

Lemma SetProvider_Ok g h p v g' :
  SetProvider g h p v = Ok g' <->
  h < length (nodes g) /\
  providers g !! (h, p) = None /\
  g' = {| nodes := nodes g; edges := edges g;
          providers := <[(h, p) := v]> (providers g) |}.
Proof.
  unfold SetProvider. destruct (nodes g !! h) eqn:En.
  - apply lookup_lt_Some in En.
    destruct (providers g !! (h, p)) eqn:E.
    + split; [done | by intros (_ & ? & _)].
    + split; [by intros [= <-] | by intros (_ & _ & ->)].
  - apply lookup_ge_None in En. split; [done | intros (? & _); lia].
Qed.

Lemma SetProvider_Err g h p v e :
  SetProvider g h p v = Err e <->
  (length (nodes g) <= h /\ e = InvalidHandleError h) \/
  (h < length (nodes g) /\ is_Some (providers g !! (h, p)) /\
   e = ProviderAlreadySetError h p).
Proof.
  unfold SetProvider. destruct (nodes g !! h) eqn:En.
  - apply lookup_lt_Some in En.
    destruct (providers g !! (h, p)) eqn:E.
    + split; [intros [= <-]; right; eauto|].
      intros [[? _] | (_ & _ & ->)]; [lia | done].
    + split; [done|]. intros [[? _] | (_ & [? ?] & _)]; [lia | done].
  - apply lookup_ge_None in En.
    split; [intros [= <-]; by left|].
    intros [[_ ->] | (? & _)]; [done | lia].
Qed.

Lemma GetProvider_SetProvider g h p v g' h' q :
  SetProvider g h p v = Ok g' ->
  GetProvider g' h' q =
    if decide ((h, p) = (h', q)) then Some v else GetProvider g h' q.
Proof.
  intros (_ & _ & ->)%SetProvider_Ok. unfold GetProvider. simpl.
  apply lookup_insert.
Qed.

Lemma SetProvider_nodes g h p v g' :
  SetProvider g h p v = Ok g' -> nodes g' = nodes g /\ edges g' = edges g.
Proof. by intros (_ & _ & ->)%SetProvider_Ok. Qed.

(** C3: for every module variant [h], provider id [p] and values [v] and
    [w]: once [SetProvider] has succeeded for [h] and [p] with [v], a second
    [SetProvider] for the same pair fails with ProviderAlreadySetError,
    whatever value it brings, be it another value [w] or [v] again; the
    value stored stays [v]. *)
Theorem SetProvider_rejects_second_write g h p v w g' :
  SetProvider g h p v = Ok g' ->
  SetProvider g' h p w = Err (ProviderAlreadySetError h p) /\
  SetProvider g' h p v = Err (ProviderAlreadySetError h p) /\
  GetProvider g' h p = Some v.
Proof.
  intros H.
  assert (Hget : GetProvider g' h p = Some v).
  { rewrite (GetProvider_SetProvider _ _ _ _ _ _ _ H). by case_decide. }
  unfold GetProvider in Hget.
  assert (Hh : h < length (nodes g')).
  { apply SetProvider_Ok in H as (Hh & _ & ->). done. }
  split; [|split]; [| |done]; apply SetProvider_Err; right; eauto.
Qed.

End ProviderStore.

Section VariationEngine.
Implicit Types (g : Graph) (p q : ProviderId) (v w : ProviderValue).

Lemma wf_graph_spec g :
  wf_graph g = true <->
  (forall e, e ∈ edges g ->
     edge_from e < length (nodes g) /\ edge_to e < length (nodes g)) /\
  (forall h p v, providers g !! (h, p) = Some v -> h < length (nodes g)).
Proof.
  unfold wf_graph. rewrite andb_true_iff, !forallb_forall. split.
  - intros [He Hp]. split.
    + intros e Hin%list_elem_of_In. specialize (He e Hin).
      apply andb_true_iff in He as [H1%Nat.ltb_lt H2%Nat.ltb_lt]. done.
    + intros h p v Hl. apply elem_of_map_to_list, list_elem_of_In in Hl.
      specialize (Hp _ Hl). by apply Nat.ltb_lt in Hp.
  - intros [He Hp]. split.
    + intros e Hin%list_elem_of_In. destruct (He e Hin) as [H1 H2].
      apply andb_true_iff. split; by apply Nat.ltb_lt.
    + intros [[h p] v] Hin%list_elem_of_In%elem_of_map_to_list.
      apply Nat.ltb_lt. simpl. eauto.
Qed.

Lemma wf_graph_fresh g h p :
  wf_graph g = true -> length (nodes g) <= h -> providers g !! (h, p) = None.
Proof.
  intros [_ Hp]%wf_graph_spec Hle.
  destruct (providers g !! (h, p)) as [v|] eqn:E; [|done].
  apply Hp in E. lia.
Qed.

Lemma CreateVariations_Ok g module axis values g' hs :
  CreateVariations g module axis values = Ok (g', hs) <->
  exists n,
    nodes g !! module = Some n /\
    node_replaced n = false /\ node_finalized n = false /\
    values <> [] /\
    g' = {| nodes :=
              <[module := mark_replaced n]> (nodes g) ++
              ((fun value =>
                  mkNode (with_variation (node_module n) axis value)
                    false false) <$> values);
            edges := edges g;
            providers := providers g |} /\
    hs = seq (length (nodes g)) (length values).
Proof.
  unfold CreateVariations. destruct (nodes g !! module) as [n|] eqn:En.
  - destruct (node_replaced n) eqn:Er, (node_finalized n) eqn:Ef; simpl;
      try (split; [done | by intros (? & [= <-] & ? & ? & _); congruence]).
    case_bool_decide as Hv; simpl.
    + split; [done | by intros (? & _ & _ & _ & ? & _)].
    + split.
      * intros [= <- <-]. exists n. done.
      * intros (n' & [= <-] & _ & _ & _ & -> & ->). done.
  - split; [done | by intros (? & ? & _)].
Qed.

Lemma can_vary_spec g module :
  can_vary g module = true <->
  exists n, nodes g !! module = Some n /\
            node_replaced n = false /\ node_finalized n = false.
Proof.
  unfold can_vary. destruct (nodes g !! module) as [n|].
  - rewrite andb_true_iff, !negb_true_iff. split.
    + intros [? ?]. by exists n.
    + by intros (? & [= <-] & ? & ?).
  - split; [done | by intros (? & ? & _)].
Qed.

(** The handles come back in the order of the values: the variant at
    position [i] of the result carries the value at position [i]. *)
Lemma CreateVariations_order g module axis values g' hs i value :
  CreateVariations g module axis values = Ok (g', hs) ->
  values !! i = Some value ->
  exists h m,
    hs !! i = Some h /\ h = length (nodes g) + i /\
    module_of g module = Some m /\
    nodes g' !! h = Some (mkNode (with_variation m axis value) false false).
Proof.
  intros (n & Hn & _ & _ & _ & -> & ->)%CreateVariations_Ok Hi.
  exists (length (nodes g) + i), (node_module n).
  split; [|split; [done|split]].
  - apply lookup_seq. split; [done|]. by eapply lookup_lt_Some.
  - unfold module_of. by rewrite Hn.
  - simpl. rewrite lookup_app_r; rewrite length_insert; [|lia].
    replace (length (nodes g) + i - length (nodes g)) with i by lia.
    rewrite list_lookup_fmap, Hi. done.
Qed.

Lemma CreateVariations_length g module axis values g' hs :
  CreateVariations g module axis values = Ok (g', hs) ->
  length hs = length values /\
  length (nodes g') = length (nodes g) + length values /\
  providers g' = providers g /\ edges g' = edges g.
Proof.
  intros (n & Hn & _ & _ & _ & -> & ->)%CreateVariations_Ok. simpl.
  rewrite length_seq, length_app, length_insert, length_fmap. done.
Qed.

(** C2: on a module that can be varied, in a well-formed graph,
    [CreateVariations(M, apex, [(empty), X])] returns exactly two handles,
    the first for the value (empty) and the second for the value X, as the
    values are ordered; and a provider value then written under the second
    handle is read back through the second handle and is not to be read
    through the first. *)
Theorem CreateVariations_two_handles g M X :
  wf_graph g = true ->
  can_vary g M = true ->
  exists g' h0 h1 m,
    CreateVariations g M "apex" [EmptyString; X] = Ok (g', [h0; h1]) /\
    h0 <> h1 /\
    module_of g M = Some m /\
    module_of g' h0 = Some (with_variation m "apex" EmptyString) /\
    module_of g' h1 = Some (with_variation m "apex" X) /\
    forall p v,
      exists g'',
        SetProvider g' h1 p v = Ok g'' /\
        GetProvider g'' h1 p = Some v /\
        forall q, GetProvider g'' h0 q = None.
Proof.
  intros Hwf (n & Hn & Hr & Hf)%can_vary_spec.
  destruct (CreateVariations g M "apex" [EmptyString; X])
    as [[g' hs]|e] eqn:HC.
  2:{ unfold CreateVariations in HC. rewrite Hn, Hr, Hf in HC. done. }
  destruct (CreateVariations_order _ _ _ _ _ _ 0 EmptyString HC eq_refl)
    as (h0 & m & Hh0 & -> & Hm & Hn0).
  destruct (CreateVariations_order _ _ _ _ _ _ 1 X HC eq_refl)
    as (h1 & m' & Hh1 & -> & Hm' & Hn1).
  assert (m' = m) as -> by congruence.
  destruct (CreateVariations_length _ _ _ _ _ _ HC) as (Hl & Hnodes & Hp & _).
  destruct hs as [|a [|b [|c hs]]]; try done.
  simpl in Hh0, Hh1. injection Hh0 as ->. injection Hh1 as ->.
  exists g', (length (nodes g) + 0), (length (nodes g) + 1), m.
  split; [done|]. split; [lia|]. split; [done|].
  split; [unfold module_of; by rewrite Hn0|].
  split; [unfold module_of; by rewrite Hn1|].
  intros p v.
  assert (Hfresh : forall h q, length (nodes g) <= h ->
                               providers g' !! (h, q) = None).
  { intros h q Hle. rewrite Hp. by apply wf_graph_fresh. }
  destruct (SetProvider g' (length (nodes g) + 1) p v) as [g''|e] eqn:HS.
  2:{ apply SetProvider_Err in HS as [[Hge _] | (_ & [? HS] & _)].
      - apply lookup_lt_Some in Hn1. lia.
      - rewrite Hfresh in HS; [done | lia]. }
  exists g''. split; [done|]. split.
  - rewrite (GetProvider_SetProvider _ _ _ _ _ _ _ HS). by case_decide.
  - intros q. rewrite (GetProvider_SetProvider _ _ _ _ _ _ _ HS).
    case_decide as Heq; [injection Heq; lia|].
    unfold GetProvider. apply Hfresh. lia.
Qed.

End VariationEngine.

(** ** Lemmas on the dependency graph *)

Section DependencyGraph.
Implicit Types (g : Graph) (e : Edge).

(** The edges that leave [module], in the order of the edge list. *)
Lemma visit_loop_targets g module (es : list Edge) (acc : list Handle) :
  fold_left (fun s e => if decide (edge_from e = module)
                        then (s ++ [edge_to e])%list else s) es acc
  = (acc ++ (edge_to <$>
              List.filter (fun e => bool_decide (edge_from e = module)) es))%list.
Proof.
  revert acc. induction es as [|e es IH]; intros acc; simpl.
  - by rewrite app_nil_r.
  - rewrite IH. case_decide as Hd.
    + rewrite bool_decide_eq_true_2 by done. simpl.
      by rewrite <- app_assoc.
    + by rewrite bool_decide_eq_false_2 by done.
Qed.

Lemma direct_deps_filter g module :
  direct_deps g module =
  edge_to <$>
    List.filter (fun e => bool_decide (edge_from e = module)) (edges g).
Proof. unfold direct_deps, VisitDirectDeps. by rewrite visit_loop_targets. Qed.

Lemma VisitDirectDeps_fold {S : Type} g module (fn : Handle -> S -> S)
    (s : S) :
  VisitDirectDeps g module fn s =
  fold_left (fun s h => fn h s) (direct_deps g module) s.
Proof.
  rewrite direct_deps_filter. unfold VisitDirectDeps.
  revert s. induction (edges g) as [|e es IH]; intros s; simpl; [done|].
  case_decide as Hd.
  - rewrite bool_decide_eq_true_2 by done. simpl. apply IH.
  - rewrite bool_decide_eq_false_2 by done. apply IH.
Qed.

Lemma direct_deps_app g g' module (es : list Edge) :
  edges g' = (edges g ++ es)%list ->
  direct_deps g' module =
  (direct_deps g module ++
   (edge_to <$>
      List.filter (fun e => bool_decide (edge_from e = module)) es))%list.
Proof.
  intros He. rewrite !direct_deps_filter, He, List.filter_app.
  by rewrite fmap_app.
Qed.

Lemma candidates_nodes g g' name :
  nodes g' = nodes g -> candidates g' name = candidates g name.
Proof.
  intros Hn. unfold candidates, live_modules, AllModules.
  rewrite Hn.
  assert (Hl : forall h, live g' h = live g h)
    by (intros h; unfold live; by rewrite Hn).
  assert (Hh : forall h, has_name g' name h = has_name g name h)
    by (intros h; unfold has_name; by rewrite Hn).
  rewrite (filter_ext _ _ Hl). apply filter_ext. exact Hh.
Qed.

Lemma AddDependency_Ok g from toName tag g' :
  AddDependency g from toName tag = Ok g' <->
  exists to,
    from < length (nodes g) /\
    candidates g toName = [to] /\
    g' = {| nodes := nodes g;
            edges := (edges g ++ [mkEdge from to tag])%list;
            providers := providers g |}.
Proof.
  unfold AddDependency. destruct (nodes g !! from) eqn:En.
  - apply lookup_lt_Some in En.
    destruct (candidates g toName) as [|to [|to' cs]].
    + split; [done | by intros (? & _ & ? & _)].
    + split; [intros [= <-]; eauto | by intros (? & _ & [= <-] & ->)].
    + split; [done | by intros (? & _ & ? & _)].
  - apply lookup_ge_None in En. split; [done | intros (? & ? & _); lia].
Qed.

Lemma AddDependency_Err g from toName tag (err : EngineError) :
  AddDependency g from toName tag = Err err ->
  (length (nodes g) <= from /\ err = InvalidHandleError from) \/
  (err = UnresolvedReferenceError toName (candidates g toName) /\
   length (candidates g toName) <> 1).
Proof.
  unfold AddDependency. destruct (nodes g !! from) eqn:En.
  - destruct (candidates g toName) as [|to [|to' cs]]; intros [= <-];
      right; done.
  - apply lookup_ge_None in En. intros [= <-]. by left.
Qed.

(** After a list of successful [AddDependency] calls the arena is as
    before, and the dependencies of a module are the earlier ones followed
    by the targets of the calls made from it, in the order of the calls. *)
Lemma add_dependencies_deps g0 calls g module :
  add_dependencies g0 calls = Ok g ->
  nodes g = nodes g0 /\ providers g = providers g0 /\
  direct_deps g module =
    (direct_deps g0 module ++ call_targets g0 module calls)%list.
Proof.
  revert g0. induction calls as [|[from [toName tag]] calls IH];
    intros g0 H; simpl in H.
  - injection H as <-. unfold call_targets. simpl.
    by rewrite app_nil_r.
  - destruct (AddDependency g0 from toName tag) as [g1|err] eqn:HA; [|done].
    simpl in H. destruct (IH _ H) as (Hn & Hp & Hd).
    apply AddDependency_Ok in HA as (to & _ & Hc & ->). simpl in *.
    split; [done|]. split; [done|].
    rewrite Hd. unfold call_targets at 2. simpl.
    fold (call_targets g0 module calls).
    rewrite (direct_deps_app g0 _ module [mkEdge from to tag]) by done.
    simpl. rewrite <- app_assoc. f_equal.
    assert (Hct : call_targets
              {| nodes := nodes g0;
                 edges := (edges g0 ++ [mkEdge from to tag])%list;
                 providers := providers g0 |} module calls
              = call_targets g0 module calls).
    { unfold call_targets. apply flat_map_ext. intros c.
      case_decide; [|done]. by apply candidates_nodes. }
    rewrite Hct. case_decide as Hd'.
    + rewrite bool_decide_eq_true_2 by done. by rewrite Hc.
    + by rewrite bool_decide_eq_false_2 by done.
Qed.

(** C5: [VisitDirectDeps(m, fn)] calls [fn] on the direct dependencies of
    [m] in the order in which their edges were inserted: after a list of
    [AddDependency] calls the dependencies of [m] are the ones it had
    before, followed by the targets of the calls made from [m], in call
    order.  Two runs from the same graph and the same calls visit the same
    sequence. *)
Theorem VisitDirectDeps_insertion_order g0 calls g module :
  add_dependencies g0 calls = Ok g ->
  direct_deps g module =
    (direct_deps g0 module ++ call_targets g0 module calls)%list /\
  (forall (S : Type) (fn : Handle -> S -> S) (s : S),
     VisitDirectDeps g module fn s =
     fold_left (fun s h => fn h s)
       (direct_deps g0 module ++ call_targets g0 module calls)%list s) /\
  (forall g2 (S : Type) (fn : Handle -> S -> S) (s : S),
     add_dependencies g0 calls = Ok g2 ->
     VisitDirectDeps g2 module fn s = VisitDirectDeps g module fn s).
Proof.
  intros H. destruct (add_dependencies_deps _ _ _ module H) as (_ & _ & Hd).
  split; [done|]. split.
  - intros S fn s. by rewrite VisitDirectDeps_fold, Hd.
  - intros g2 S fn s H2.
    destruct (add_dependencies_deps _ _ _ module H2) as (_ & _ & Hd2).
    by rewrite !VisitDirectDeps_fold, Hd, Hd2.
Qed.

End DependencyGraph.

(** ** CheckModuleDependencies *)

Section CheckDependencies.
Implicit Types (g : Graph).

Lemma ascii_compare_trans_lt a b c :
  Ascii.compare a b = Lt -> Ascii.compare b c = Lt -> Ascii.compare a c = Lt.
Proof. unfold Ascii.compare. rewrite !N.compare_lt_iff. lia. Qed.

Lemma string_compare_trans a b c :
  String.compare a b <> Gt -> String.compare b c <> Gt ->
  String.compare a c <> Gt.
Proof.
  revert b c. induction a as [|x a IH]; intros [|y b] [|z c]; simpl; try done.
  destruct (Ascii.compare x y) eqn:Hxy; [| |done].
  - apply Ascii.compare_eq_iff in Hxy as ->.
    destruct (Ascii.compare y z) eqn:Hyz; [|done..]. apply IH.
  - intros _. destruct (Ascii.compare y z) eqn:Hyz; [| |done].
    + apply Ascii.compare_eq_iff in Hyz as ->. by rewrite Hxy.
    + by rewrite (ascii_compare_trans_lt _ _ _ Hxy Hyz).
Qed.

Lemma string_le_compare a b : string_le a b <-> String.compare a b <> Gt.
Proof.
  unfold string_le, String.leb. by destruct (String.compare a b).
Qed.

Lemma string_le_trans : Transitive string_le.
Proof.
  intros a b c. rewrite !string_le_compare. apply string_compare_trans.
Qed.

Lemma string_le_total : Total string_le.
Proof. intros a b. apply String.leb_total. Qed.

Lemma string_le_antisym : AntiSymm eq string_le.
Proof. intros a b. apply String.leb_antisym. Qed.

(** [sort.Strings] forgets the order of its input. *)
Lemma sort_Strings_Permutation (l1 l2 : list string) :
  l1 ≡ₚ l2 -> sort_Strings l1 = sort_Strings l2.
Proof.
  intros Hp. unfold sort_Strings.
  apply (@Sorted_unique _ string_le string_le_trans string_le_antisym).
  - apply (@Sorted_merge_sort _ string_le _ string_le_total).
  - apply (@Sorted_merge_sort _ string_le _ string_le_total).
  - by rewrite !merge_sort_Permutation.
Qed.

Lemma List_filter_Permutation {A : Type} (f : A -> bool) (l1 l2 : list A) :
  l1 ≡ₚ l2 -> List.filter f l1 ≡ₚ List.filter f l2.
Proof.
  induction 1 as [|x l1 l2 _ IH|x y l|l1 l2 l3 _ IH1 _ IH2]; simpl.
  - done.
  - destruct (f x); [by constructor | done].
  - destruct (f x), (f y); try done. apply Permutation_swap.
  - by etransitivity.
Qed.

(** The names that the callback of [CheckModuleDependencies] collects. *)
Lemma visit_sequence_names (modules : list Module) :
  visit_sequence modules (fun m deps => (deps ++ [Name m])%list) [] =
  Name <$> modules.
Proof.
  unfold visit_sequence.
  assert (H : forall l acc,
            fold_left (fun s m => (s ++ [Name m])%list) l acc =
            (acc ++ (Name <$> l))%list).
  { induction l as [|h l IH]; intros acc; simpl.
    - by rewrite app_nil_r.
    - by rewrite IH, <- app_assoc. }
  by rewrite H.
Qed.

(** X15: [CheckModuleDependencies] sorts the names before it compares them:
    for an [expected] slice that is not nil (the lists here are the slices
    that are not nil, as [deps] always is), it makes no [t.Errorf] call
    exactly when [expected] is the sorted list of the names of the visited
    modules, and its verdict does not depend on the order in which the
    modules are visited. *)
Theorem CheckModuleDependencies_sorted (modules modules' : list Module)
    (expected : list string) :
  (CheckModuleDependencies (visit_sequence modules) expected = None <->
   expected = sort_Strings (Name <$> modules)) /\
  (modules ≡ₚ modules' ->
   CheckModuleDependencies (visit_sequence modules) expected =
   CheckModuleDependencies (visit_sequence modules') expected).
Proof.
  unfold CheckModuleDependencies. rewrite !visit_sequence_names. split.
  - by case_decide.
  - intros Hp.
    by rewrite (sort_Strings_Permutation (Name <$> modules)
                  (Name <$> modules')) by (by apply fmap_Permutation).
Qed.

(** On the engine the modules visited are the modules behind the direct
    dependencies. *)
Lemma visit_direct_dep_modules_sequence g module fn (s : list string) :
  visit_direct_dep_modules g module fn s =
  visit_sequence (omap (module_of g) (direct_deps g module)) fn s.
Proof.
  unfold visit_direct_dep_modules, visit_sequence.
  rewrite VisitDirectDeps_fold. revert s.
  induction (direct_deps g module) as [|h hs IH]; intros s; simpl; [done|].
  destruct (module_of g h); simpl; apply IH.
Qed.

Lemma omap_Permutation {A B : Type} (f : A -> option B) (l1 l2 : list A) :
  l1 ≡ₚ l2 -> omap f l1 ≡ₚ omap f l2.
Proof.
  induction 1 as [|x l1 l2 _ IH|x y l|l1 l2 l3 _ IH1 _ IH2]; simpl.
  - done.
  - destruct (f x); [by constructor | done].
  - destruct (f x), (f y); try done. apply Permutation_swap.
  - by etransitivity.
Qed.

(** So the verdict of [CheckModuleDependencies] on a graph does not depend on
    the order of its edges. *)
Lemma CheckModuleDependencies_any_order g g' module expected :
  nodes g' = nodes g ->
  edges g' ≡ₚ edges g ->
  CheckModuleDependencies (visit_direct_dep_modules g' module) expected =
  CheckModuleDependencies (visit_direct_dep_modules g module) expected.
Proof.
  intros Hn He. unfold CheckModuleDependencies.
  rewrite !visit_direct_dep_modules_sequence, !visit_sequence_names.
  assert (Hm : module_of g' = module_of g).
  { unfold module_of. by rewrite Hn. }
  rewrite Hm.
  rewrite (sort_Strings_Permutation
             (Name <$> omap (module_of g) (direct_deps g' module))
             (Name <$> omap (module_of g) (direct_deps g module)));
    [done|].
  apply fmap_Permutation, omap_Permutation. rewrite !direct_deps_filter.
  apply fmap_Permutation. by apply List_filter_Permutation.
Qed.

End CheckDependencies.

(** ** Lemmas on the source providers of a rust module *)

Section SourceProviders.

(** Every output that was collected before, or that an earlier source
    provider generates too, is reported under its own filename. *)
Lemma collision_errors_complete (srcDeps outputs : list string) (f : string)
    (j : nat) :
  srcDeps !! j = Some f ->
  f ∈ outputs \/ (exists i, i < j /\ srcDeps !! i = Some f) ->
  collision_message f ∈ collision_errors outputs srcDeps.
Proof.
  revert outputs j. induction srcDeps as [|x rest IH]; intros outputs j Hj H.
  - done.
  - simpl. apply elem_of_app. destruct j as [|j'].
    + left. injection Hj as ->.
      destruct H as [H | (i & Hi & _)]; [|lia].
      rewrite bool_decide_eq_true_2 by done. by apply list_elem_of_singleton.
    + right. simpl in Hj. apply (IH _ j' Hj).
      destruct H as [H | (i & Hi & Hx)].
      * left. apply elem_of_app. by left.
      * destruct i as [|i'].
        -- left. injection Hx as ->. apply elem_of_app. right.
           by apply list_elem_of_singleton.
        -- right. exists i'. split; [lia | done].
Qed.

(** Every reported error names a filename that was collected before or
    that two source providers generate. *)
Lemma collision_errors_sound (srcDeps outputs : list string) (msg : string) :
  msg ∈ collision_errors outputs srcDeps ->
  exists f j,
    msg = collision_message f /\ srcDeps !! j = Some f /\
    (f ∈ outputs \/ exists i, i < j /\ srcDeps !! i = Some f).
Proof.
  revert outputs. induction srcDeps as [|x rest IH]; intros outputs H.
  - by apply elem_of_nil in H.
  - simpl in H. apply elem_of_app in H as [H|H].
    + case_bool_decide as Hx; [|by apply elem_of_nil in H].
      apply list_elem_of_singleton in H as ->.
      exists x, 0. split; [done|]. split; [done|]. by left.
    + destruct (IH _ H) as (f & j & -> & Hj & Hc).
      exists f, (S j). split; [done|]. split; [done|].
      destruct Hc as [[Hc|Hc%list_elem_of_singleton]%elem_of_app
                     | (i & Hi & Hf)].
      * by left.
      * subst x. right. exists 0. split; [lia | done].
      * right. exists (S i). split; [lia | done].
Qed.

(** C4: when two of the source providers of a module generate an output of
    the same filename, the build of the module fails and one of its errors
    is the message that names that filename exactly; for two rust_bindgen
    modules of stem bindings the filename is bindings.rs, as in
    [TestSourceProviderCollision]. *)
Theorem source_provider_collision (deps : list SourceProvider) (i j : nat)
    (a b : SourceProvider) :
  i <> j ->
  deps !! i = Some a ->
  deps !! j = Some b ->
  source_output a = source_output b ->
  exists errs,
    build_sources deps = inl errs /\
    ("multiple source providers generate the same filename output: " +:+
     source_output a) ∈ errs /\
    (sp_stem a = "bindings" ->
     "multiple source providers generate the same filename output: bindings.rs"
       ∈ errs).
Proof.
  intros Hij Ha Hb Hab.
  assert (Hin : collision_message (source_output a) ∈
                collision_errors [] (source_output <$> deps)).
  { destruct (Nat.lt_total i j) as [Hlt | [Heq | Hgt]]; [|done|].
    - apply (collision_errors_complete _ _ _ j).
      + by rewrite list_lookup_fmap, Hb, Hab.
      + right. exists i. split; [done|]. by rewrite list_lookup_fmap, Ha.
    - apply (collision_errors_complete _ _ _ i).
      + by rewrite list_lookup_fmap, Ha.
      + right. exists j. split; [done|].
        by rewrite list_lookup_fmap, Hb, Hab. }
  unfold build_sources.
  destruct (collision_errors [] (source_output <$> deps)) as [|e errs] eqn:E.
  - by apply elem_of_nil in Hin.
  - exists (e :: errs). split; [done|]. split; [exact Hin|].
    intros Hs. unfold collision_message, source_output in Hin.
    by rewrite Hs in Hin.
Qed.

Lemma source_provider_collision_witness :
  exists errs,
    build_sources collider_deps = inl errs /\
    ("multiple source providers generate the same filename output: " +:+
     "bindings.rs") ∈ errs /\
    (sp_stem (mkSourceProvider "libbindings1" "bindings") = "bindings" ->
     "multiple source providers generate the same filename output: bindings.rs"
       ∈ errs).
Proof.
  apply (source_provider_collision collider_deps 0 1
           (mkSourceProvider "libbindings1" "bindings")
           (mkSourceProvider "libbindings2" "bindings"));
    [lia | reflexivity | reflexivity | reflexivity].
Defined.

(** The build of [TestSourceProviderCollision] fails with this one error. *)
Example collider_build :
  build_sources collider_deps =
  inl ["multiple source providers generate the same filename output: bindings.rs"].
Proof. reflexivity. Qed.

(** Without two outputs of the same filename the build has its outputs. *)
Lemma build_sources_distinct (deps : list SourceProvider) :
  NoDup (source_output <$> deps) ->
  build_sources deps = inr (source_output <$> deps).
Proof.
  intros Hnd. unfold build_sources.
  destruct (collision_errors [] (source_output <$> deps)) as [|e errs] eqn:E;
    [done|].
  assert (He : e ∈ collision_errors [] (source_output <$> deps))
    by (rewrite E; apply list_elem_of_here).
  apply collision_errors_sound in He
    as (f & j & _ & Hj & [Hin | (i & Hi & Hf)]).
  - by apply elem_of_nil in Hin.
  - exfalso. pose proof (NoDup_lookup _ _ _ _ Hnd Hj Hf). lia.
Qed.

End SourceProviders.

(** ** Lemmas on the mutator pipeline *)

Section MutatorRuns.
Implicit Types (g : Graph) (s : PassState).

Lemma graph_grows_refl g : graph_grows g g.
Proof. split; [lia | auto]. Qed.

Lemma graph_grows_trans g1 g2 g3 :
  graph_grows g1 g2 -> graph_grows g2 g3 -> graph_grows g1 g3.
Proof.
  intros [Hl1 H1] [Hl2 H2]. split; [lia|].
  intros h Hh Hlive. apply H1; [done|]. apply H2; [lia | done].
Qed.

Lemma graph_grows_nodes g g' : nodes g' = nodes g -> graph_grows g g'.
Proof.
  intros Hn. split; [by rewrite Hn|].
  intros h _. unfold live. by rewrite Hn.
Qed.

Lemma CreateVariations_grows g module axis values g' hs :
  CreateVariations g module axis values = Ok (g', hs) -> graph_grows g g'.
Proof.
  intros (n & Hn & _ & _ & _ & -> & _)%CreateVariations_Ok.
  split; simpl.
  - rewrite length_app, length_insert. lia.
  - intros h Hh. unfold live. simpl.
    rewrite lookup_app_l by (by rewrite length_insert).
    destruct (decide (h = module)) as [->|Hne].
    + rewrite list_lookup_insert_eq by done. done.
    + by rewrite list_lookup_insert_ne.
Qed.

(** A mutator only makes the arena grow. *)
Lemma run_mut_grows {A : Type} (axis : string) (self : Handle) (m : Mut A) g
    (a : A) g' :
  run_mut axis self m g = Ok (a, g') -> graph_grows g g'.
Proof.
  revert g. induction m as [x | p | k IH | values k IH | h p v k IH
                             | p v k IH | tag name k IH]; intros g H;
    simpl in H.
  - injection H as _ <-. apply graph_grows_refl.
  - done.
  - destruct (nodes g !! self); [|done]. by eapply IH.
  - destruct (CreateVariations g self axis values) as [[g1 hs]|e] eqn:HC;
      [|done].
    simpl in H. eapply graph_grows_trans; [|by eapply IH].
    by eapply CreateVariations_grows.
  - destruct (SetProvider g h p v) as [g1|e] eqn:HS; [|done]. simpl in H.
    eapply graph_grows_trans; [|by eapply IH].
    apply graph_grows_nodes. by apply SetProvider_nodes in HS as [? _].
  - destruct (SetProvider g self p v) as [g1|e] eqn:HS; [|done]. simpl in H.
    eapply graph_grows_trans; [|by eapply IH].
    apply graph_grows_nodes. by apply SetProvider_nodes in HS as [? _].
  - destruct (AddDependency g self name tag) as [g1|e] eqn:HA; [|done].
    simpl in H. eapply graph_grows_trans; [|by eapply IH].
    apply graph_grows_nodes.
    by apply AddDependency_Ok in HA as (? & _ & _ & ->).
Qed.

Lemma created_app g1 g2 g3 :
  length (nodes g1) <= length (nodes g2) ->
  length (nodes g2) <= length (nodes g3) ->
  (created g1 g2 ++ created g2 g3)%list = created g1 g3.
Proof.
  intros H1 H2. unfold created.
  replace (length (nodes g3) - length (nodes g1))
    with ((length (nodes g2) - length (nodes g1)) +
          (length (nodes g3) - length (nodes g2))) by lia.
  rewrite seq_app. do 2 f_equal. lia.
Qed.

Lemma created_refl g : created g g = [].
Proof. unfold created. by rewrite Nat.sub_diag. Qed.

Lemma pass_step_Ok axis fn s s' :
  pass_step axis fn s = Ok s' ->
  (ps_pending s = [] /\ s' = s) \/
  exists h rest u,
    ps_pending s = h :: rest /\
    run_mut axis h fn (ps_graph s) = Ok (u, ps_graph s') /\
    ps_pending s' = (rest ++ created (ps_graph s) (ps_graph s'))%list /\
    ps_visited s' = (ps_visited s ++ [h])%list.
Proof.
  unfold pass_step. destruct (ps_pending s) as [|h rest] eqn:Hp.
  - intros [= <-]. by left.
  - destruct (run_mut axis h fn (ps_graph s)) as [[u g']|e] eqn:HR; [|done].
    simpl. intros [= <-]. right. exists h, rest, u. done.
Qed.

(** The worklist after any number of steps: the variants visited so far
    followed by the pending ones are the initial queue followed by the
    variants created since, in creation order. *)
Lemma pass_steps_queue n axis fn s s' :
  pass_steps n axis fn s = Ok s' ->
  graph_grows (ps_graph s) (ps_graph s') /\
  (ps_visited s' ++ ps_pending s')%list =
  (ps_visited s ++ ps_pending s ++
   created (ps_graph s) (ps_graph s'))%list.
Proof.
  revert s. induction n as [|n IH]; intros s H; simpl in H.
  - injection H as <-. split; [apply graph_grows_refl|].
    by rewrite created_refl, app_nil_r.
  - destruct (pass_step axis fn s) as [s1|e] eqn:H1; [|done]. simpl in H.
    destruct (IH _ H) as [Hg Hq].
    apply pass_step_Ok in H1
      as [[_ ->] | (h & rest & u & Hp & HR & Hp1 & Hv1)]; [done|].
    apply run_mut_grows in HR.
    split; [by eapply graph_grows_trans|].
    rewrite Hq, Hp, Hp1, Hv1. rewrite <- !app_assoc. simpl.
    do 3 f_equal. apply created_app; [apply HR | apply Hg].
Qed.

Lemma pass_steps_finished n axis fn s :
  ps_pending s = [] -> pass_steps n axis fn s = Ok s.
Proof.
  intros Hp. induction n as [|n IH]; simpl; [done|].
  unfold pass_step. rewrite Hp. simpl. exact IH.
Qed.

Lemma pass_steps_add n m axis fn s :
  pass_steps (n + m) axis fn s =
  bind (pass_steps n axis fn s) (pass_steps m axis fn).
Proof.
  revert s. induction n as [|n IH]; intros s; simpl; [done|].
  destruct (pass_step axis fn s) as [s1|e]; simpl; [apply IH | done].
Qed.

End MutatorRuns.

Section PassOrder.
Implicit Types (g : Graph) (s : PassState).

Lemma NoDup_List_filter {A : Type} (f : A -> bool) (l : list A) :
  NoDup l -> NoDup (List.filter f l).
Proof.
  induction l as [|x l IH]; simpl; [done|].
  intros [Hx Hnd]%NoDup_cons. destruct (f x); [|by apply IH].
  apply NoDup_cons. split; [|by apply IH].
  rewrite list_elem_of_In, filter_In, <- list_elem_of_In. by intros [? _].
Qed.

Lemma live_lt g h : live g h = true -> h < length (nodes g).
Proof.
  unfold live. destruct (nodes g !! h) eqn:E; [|done].
  intros _. by eapply lookup_lt_Some.
Qed.

Lemma elem_of_live_modules g h : h ∈ live_modules g <-> live g h = true.
Proof.
  unfold live_modules, AllModules.
  rewrite list_elem_of_In, filter_In, in_seq. split; [by intros [_ ?]|].
  intros H. split; [|done]. apply live_lt in H. lia.
Qed.

Lemma NoDup_live_modules g : NoDup (live_modules g).
Proof. unfold live_modules, AllModules. apply NoDup_List_filter, NoDup_seq. Qed.

Lemma elem_of_created g g' h :
  length (nodes g) <= length (nodes g') ->
  h ∈ created g g' <-> length (nodes g) <= h < length (nodes g').
Proof.
  intros Hle. unfold created. rewrite list_elem_of_In, in_seq. lia.
Qed.

Lemma filter_remove_absent (l : list nat) (h : nat) :
  h ∉ l -> List.filter (fun h' => negb (h' =? h)%nat) l = l.
Proof.
  induction l as [|x l IH]; simpl; [done|].
  intros [Hne Hl]%not_elem_of_cons.
  destruct (Nat.eqb_spec x h) as [->|_]; [done|]. simpl. by rewrite IH.
Qed.

(** Taking one element out of a list without duplicates. *)
Lemma remove_Permutation (l : list nat) (h : nat) :
  NoDup l -> h ∈ l ->
  l ≡ₚ h :: List.filter (fun h' => negb (h' =? h)%nat) l.
Proof.
  induction l as [|x l IH]; intros Hnd Hin; [by apply elem_of_nil in Hin|].
  apply NoDup_cons in Hnd as [Hx Hnd]. simpl.
  destruct (Nat.eqb_spec x h) as [->|Hne]; simpl.
  - by rewrite filter_remove_absent.
  - apply elem_of_cons in Hin as [->|Hin]; [done|].
    rewrite (IH Hnd Hin) at 1. apply Permutation_swap.
Qed.

(** The order of a pass holds what was to be ordered, each variant once. *)
Lemma topo_order_Permutation fuel g (remaining emitted order : list Handle) :
  NoDup remaining ->
  topo_order fuel g remaining emitted = Ok order ->
  order ≡ₚ (emitted ++ remaining)%list.
Proof.
  revert remaining emitted.
  induction fuel as [|fuel IH]; intros remaining emitted Hnd H;
    destruct remaining as [|x rest]; cbn [topo_order] in H; try done.
  - injection H as <-. by rewrite app_nil_r.
  - injection H as <-. by rewrite app_nil_r.
  - destruct (List.find (ready g (x :: rest)) (x :: rest)) as [h|] eqn:Hf;
      [|done].
    apply List.find_some in Hf as [Hin%list_elem_of_In _].
    apply IH in H; [|by apply NoDup_List_filter].
    rewrite H, <- app_assoc. simpl.
    apply Permutation_app_head. symmetry.
    by apply remove_Permutation.
Qed.

Lemma pass_order_Permutation d g order :
  pass_order d g = Ok order -> order ≡ₚ live_modules g.
Proof.
  unfold pass_order.
  destruct (topo_order _ g (live_modules g) []) as [o|e] eqn:Ht; [|done].
  apply topo_order_Permutation in Ht; [|apply NoDup_live_modules].
  simpl in *. destruct d; intros [= <-]; [done|].
  by rewrite <- Permutation_rev.
Qed.

Lemma ready_spec g (remaining : list Handle) h :
  ready g remaining h = true <->
  forall d, d ∈ direct_deps g h -> d ∉ remaining.
Proof.
  unfold ready. rewrite forallb_forall. split.
  - intros H d Hd%list_elem_of_In. specialize (H d Hd).
    by apply negb_true_iff, bool_decide_eq_false in H.
  - intros H d Hd%list_elem_of_In.
    by apply negb_true_iff, bool_decide_eq_false, H.
Qed.

Lemma topo_order_prefix fuel g (remaining emitted order : list Handle) :
  topo_order fuel g remaining emitted = Ok order ->
  exists rest, order = (emitted ++ rest)%list.
Proof.
  revert remaining emitted.
  induction fuel as [|fuel IH]; intros remaining emitted H;
    destruct remaining as [|x rest]; cbn [topo_order] in H; try done.
  - injection H as <-. exists []. by rewrite app_nil_r.
  - injection H as <-. exists []. by rewrite app_nil_r.
  - destruct (List.find (ready g (x :: rest)) (x :: rest)) as [h|] eqn:Hf;
      [|done].
    destruct (IH _ _ H) as [tl ->]. exists (h :: tl).
    by rewrite <- app_assoc.
Qed.

(** The order of a bottom-up pass puts the dependencies of a module before
    the module: a direct dependency that was still to be ordered stands at an
    earlier place. *)
Lemma topo_order_deps_first fuel g (remaining emitted order : list Handle)
    (i : nat) (h d : Handle) :
  topo_order fuel g remaining emitted = Ok order ->
  order !! i = Some h -> length emitted <= i ->
  d ∈ direct_deps g h -> d ∈ remaining ->
  d ∈ take i order.
Proof.
  revert remaining emitted.
  induction fuel as [|fuel IH]; intros remaining emitted H Hi Hle Hd Hin;
    destruct remaining as [|x rest]; cbn [topo_order] in H; try done.
  - by apply elem_of_nil in Hin.
  - by apply elem_of_nil in Hin.
  - destruct (List.find (ready g (x :: rest)) (x :: rest)) as [h0|] eqn:Hf;
      [|done].
    apply List.find_some in Hf as [_ Hready].
    destruct (topo_order_prefix _ _ _ _ _ H) as [tl Ho].
    assert (Hh0 : order !! length emitted = Some h0).
    { rewrite Ho, <- app_assoc. simpl. by apply list_lookup_middle. }
    destruct (decide (i = length emitted)) as [->|Hne].
    + assert (h = h0) as -> by congruence.
      exfalso. by apply (proj1 (ready_spec _ _ _) Hready d).
    + destruct (decide (d = h0)) as [->|Hd0].
      * apply list_elem_of_lookup. exists (length emitted).
        rewrite lookup_take_lt by lia. done.
      * apply (IH _ _ H Hi); [rewrite length_app; simpl; lia | done |].
        rewrite list_elem_of_In, filter_In, <- list_elem_of_In.
        split; [done|]. apply negb_true_iff. by apply Nat.eqb_neq.
Qed.

Lemma pass_order_bottom_up g order (i : nat) (h d : Handle) :
  pass_order BottomUp g = Ok order ->
  order !! i = Some h ->
  d ∈ direct_deps g h -> live g d = true ->
  d ∈ take i order.
Proof.
  unfold pass_order.
  destruct (topo_order _ g (live_modules g) []) as [o|e] eqn:Ht; [|done].
  simpl. intros [= <-] Hi Hd Hl.
  eapply topo_order_deps_first; [done | done | simpl; lia | done |].
  by apply elem_of_live_modules.
Qed.

Lemma check_dangling_Ok g g' : check_dangling g = Ok g' -> g' = g.
Proof.
  unfold check_dangling. destruct (dangling g); [|done]. by intros [= <-].
Qed.

Lemma run_worklist_Ok fuel axis fn s s' :
  run_worklist fuel axis fn s = Some (Ok s') <->
  pass_steps fuel axis fn s = Ok s' /\ ps_pending s' = [].
Proof.
  unfold run_worklist. destruct (pass_steps fuel axis fn s) as [s1|e].
  - destruct (ps_pending s1) eqn:Hp.
    + split; [intros [= <-]; done | by intros [[= <-] _]].
    + split; [done | intros [[= <-] ?]; congruence].
  - split; [done | by intros [? _]].
Qed.

Lemma run_pass_Ok fuel reg g visited g' :
  run_pass fuel reg g = Some (Ok (visited, g')) <->
  exists order s,
    pass_order (mut_direction reg) g = Ok order /\
    pass_steps fuel (mut_name reg) (mut_fn reg) (mkPassState order [] g)
      = Ok s /\
    ps_pending s = [] /\ dangling (ps_graph s) = [] /\
    visited = ps_visited s /\ g' = ps_graph s.
Proof.
  unfold run_pass.
  destruct (pass_order (mut_direction reg) g) as [order|e] eqn:Ho.
  2:{ split; [done | by intros (? & ? & ? & _)]. }
  destruct (run_worklist fuel (mut_name reg) (mut_fn reg)
              (mkPassState order [] g)) as [[s|e]|] eqn:Hw.
  - apply run_worklist_Ok in Hw as [Hs Hp].
    unfold check_dangling. destruct (dangling (ps_graph s)) eqn:Hd; simpl.
    + split.
      * intros [= <- <-]. exists order, s. done.
      * intros (o & s1 & [= <-] & Hs1 & _ & _ & -> & ->).
        rewrite Hs in Hs1. by injection Hs1 as <-.
    + split; [done|].
      intros (o & s1 & [= <-] & Hs1 & _ & Hd1 & _).
      rewrite Hs in Hs1. injection Hs1 as <-. congruence.
  - split; [done|]. intros (o & s1 & [= <-] & Hs1 & Hp & _).
    assert (Hw' : run_worklist fuel (mut_name reg) (mut_fn reg)
                    (mkPassState order [] g) = Some (Ok s1))
      by (by apply run_worklist_Ok).
    congruence.
  - split; [done|]. intros (o & s1 & [= <-] & Hs1 & Hp & _).
    assert (Hw' : run_worklist fuel (mut_name reg) (mut_fn reg)
                    (mkPassState order [] g) = Some (Ok s1))
      by (by apply run_worklist_Ok).
    congruence.
Qed.

(** The visits of a pass are a prefix of its queue: after [n] steps the
    first [n] variants of the queue have been visited, in queue order, and
    the others are pending. *)
Lemma pass_steps_take_drop n axis fn s s' :
  pass_steps n axis fn s = Ok s' ->
  ps_visited s' =
    (ps_visited s ++
     take n (ps_pending s ++ created (ps_graph s) (ps_graph s')))%list /\
  ps_pending s' =
    drop n (ps_pending s ++ created (ps_graph s) (ps_graph s'))%list.
Proof.
  revert s. induction n as [|n IH]; intros s H; simpl in H.
  - injection H as <-. by rewrite created_refl, !app_nil_r.
  - destruct (pass_step axis fn s) as [s1|e] eqn:H1; [|done]. simpl in H.
    pose proof (pass_steps_queue _ _ _ _ _ H) as [Hg _].
    destruct (IH _ H) as [Hv Hp].
    apply pass_step_Ok in H1
      as [[Hnil ->] | (h & rest & u & Hp0 & HR & Hp1 & Hv1)].
    + rewrite pass_steps_finished in H by done. injection H as <-.
      rewrite Hnil, created_refl. simpl. by rewrite app_nil_r.
    + apply run_mut_grows in HR.
      assert (Hq : (ps_pending s1 ++ created (ps_graph s1) (ps_graph s'))%list
                   = (rest ++ created (ps_graph s) (ps_graph s'))%list).
      { rewrite Hp1, <- app_assoc. f_equal.
        apply created_app; [apply HR | apply Hg]. }
      rewrite Hq in Hv, Hp. rewrite Hv, Hp, Hv1, Hp0. simpl.
      by rewrite <- app_assoc.
Qed.

(** The queue of a pass: the variants of the start graph in pass order, then
    the variants created since, in creation order; each variant once. *)
Lemma pass_queue_NoDup d g g' order :
  pass_order d g = Ok order ->
  length (nodes g) <= length (nodes g') ->
  NoDup (order ++ created g g')%list /\
  (forall h, h ∈ (order ++ created g g')%list <->
     live g h = true \/ length (nodes g) <= h < length (nodes g')).
Proof.
  intros Ho Hle. pose proof (pass_order_Permutation _ _ _ Ho) as Hperm.
  split.
  - apply NoDup_app. split; [|split].
    + rewrite Hperm. apply NoDup_live_modules.
    + intros h Hin Hin'. rewrite Hperm in Hin.
      apply elem_of_live_modules, live_lt in Hin.
      apply elem_of_created in Hin'; [lia | done].
    + apply NoDup_seq.
  - intros h. rewrite elem_of_app, Hperm, elem_of_live_modules.
    by rewrite elem_of_created.
Qed.

Lemma live_in_queue d g g' order h :
  pass_order d g = Ok order ->
  graph_grows g g' ->
  live g' h = true -> h ∈ (order ++ created g g')%list.
Proof.
  intros Ho [Hle Hlive] Hl.
  apply (pass_queue_NoDup _ _ _ _ Ho Hle).
  destruct (decide (h < length (nodes g))) as [Hlt|Hge].
  - left. by apply Hlive.
  - right. apply live_lt in Hl. lia.
Qed.

(** A pass that has run to its end has visited every module variant exactly
    once: the variants of the graph it started from, in the order of the
    pass, followed by every variant made during the pass. *)
Lemma run_pass_visits fuel reg g visited g' :
  run_pass fuel reg g = Some (Ok (visited, g')) ->
  exists order,
    pass_order (mut_direction reg) g = Ok order /\
    order ≡ₚ live_modules g /\
    visited = (order ++ created g g')%list /\
    NoDup visited /\
    (forall h, h ∈ visited <->
       live g h = true \/ length (nodes g) <= h < length (nodes g')) /\
    (forall h, live g' h = true -> h ∈ visited).
Proof.
  intros (order & s & Ho & Hs & Hp & _ & -> & ->)%run_pass_Ok.
  apply pass_steps_queue in Hs as [Hg Hq]. simpl in *.
  rewrite Hp, app_nil_r in Hq.
  pose proof (pass_order_Permutation _ _ _ Ho) as Hperm.
  destruct (pass_queue_NoDup _ _ _ _ Ho (proj1 Hg)) as [Hnd Hmem].
  exists order. rewrite Hq. repeat split; try done.
  - by apply Hmem.
  - by apply Hmem.
  - intros h Hl. by eapply live_in_queue.
Qed.

(** On the worklist of 4.3 a pass visits every module variant exactly once,
    the variants made during the pass included (C7 says so of the engine; see
    [fake_apex_pass_never_completes] for this worklist and the fake APEX
    mutator).  The queue of the pass is the variants of the
    graph it started from, in pass order, followed by the variants that
    [CreateVariations] has made since, which are appended as they are made;
    every variant of the current graph is in the queue, once.  After [n]
    visits the first [n] variants of the queue have been visited, each once,
    and the others are pending; when nothing is pending, the pass has visited
    the whole queue. *)
Lemma pass_visits_each_variant_once n reg g order s :
  pass_order (mut_direction reg) g = Ok order ->
  pass_steps n (mut_name reg) (mut_fn reg) (mkPassState order [] g) = Ok s ->
  let queue := (order ++ created g (ps_graph s))%list in
  order ≡ₚ live_modules g /\
  NoDup queue /\
  (forall h, live (ps_graph s) h = true -> h ∈ queue) /\
  (forall h, h ∈ queue <->
     live g h = true \/ length (nodes g) <= h < length (nodes (ps_graph s))) /\
  ps_visited s = take n queue /\
  ps_pending s = drop n queue /\
  NoDup (ps_visited s) /\
  (ps_pending s = [] -> ps_visited s = queue).
Proof.
  intros Ho Hs. simpl.
  destruct (pass_steps_queue _ _ _ _ _ Hs) as [Hg Hq].
  destruct (pass_steps_take_drop _ _ _ _ _ Hs) as [Hv Hp]. simpl in *.
  destruct (pass_queue_NoDup _ _ _ _ Ho (proj1 Hg)) as [Hnd Hmem].
  split; [by eapply pass_order_Permutation|].
  split; [done|]. split; [intros h Hl; by eapply live_in_queue|].
  split; [done|]. split; [done|]. split; [done|]. split.
  - rewrite Hv. rewrite <- (take_drop n) in Hnd.
    by apply NoDup_app in Hnd as [? _].
  - intros Hnil. rewrite Hnil, app_nil_r in Hq. done.
Qed.

End PassOrder.

Section Determinism.
Implicit Types (g : Graph) (s : PassState).

(** A larger budget does not change the result of a worklist run. *)
Lemma run_worklist_mono fuel fuel' axis fn s r :
  fuel <= fuel' ->
  run_worklist fuel axis fn s = Some r ->
  run_worklist fuel' axis fn s = Some r.
Proof.
  intros Hle. replace fuel' with (fuel + (fuel' - fuel)) by lia.
  unfold run_worklist. rewrite pass_steps_add.
  destruct (pass_steps fuel axis fn s) as [s1|e]; simpl; [|done].
  destruct (ps_pending s1) eqn:Hp; [|done].
  intros [= <-]. rewrite pass_steps_finished by done. by rewrite Hp.
Qed.

Lemma run_pass_mono fuel fuel' reg g r :
  fuel <= fuel' ->
  run_pass fuel reg g = Some r -> run_pass fuel' reg g = Some r.
Proof.
  intros Hle. unfold run_pass.
  destruct (pass_order (mut_direction reg) g) as [order|e]; [|done].
  destruct (run_worklist fuel _ _ _) as [w|] eqn:Hw; [|done].
  by rewrite (run_worklist_mono _ _ _ _ _ _ Hle Hw).
Qed.

Lemma RunAll_mono fuel fuel' regs g r :
  fuel <= fuel' ->
  RunAll fuel regs g = Some r -> RunAll fuel' regs g = Some r.
Proof.
  intros Hle. revert g. induction regs as [|reg regs IH]; intros g; simpl;
    [done|].
  destruct (run_pass fuel reg g) as [w|] eqn:Hp; [|done].
  rewrite (run_pass_mono _ _ _ _ _ Hle Hp).
  destruct w as [[visited g']|e]; [apply IH | done].
Qed.

Lemma run_pipeline_mono fuel fuel' defs regs r :
  fuel <= fuel' ->
  run_pipeline fuel defs regs = Some r ->
  run_pipeline fuel' defs regs = Some r.
Proof.
  intros Hle. unfold run_pipeline.
  destruct (build_graph defs); [by apply RunAll_mono | done].
Qed.

(** The budget of visits does not enter the result of a run: two runs from
    the same module definitions and the same mutator registrations that
    both come to their end under their budgets end alike, with the same
    fatal error or with the same graph.  This says nothing of a run that
    does not come to its end, as the run of [fakeApexMutator] under the
    worklist of 4.3 (see [fake_apex_pass_never_completes]). *)
Lemma run_pipeline_deterministic fuel1 fuel2 defs regs out1 out2 :
  run_pipeline fuel1 defs regs = Some out1 ->
  run_pipeline fuel2 defs regs = Some out2 ->
  out1 = out2 /\
  forall g1 g2, out1 = Ok g1 -> out2 = Ok g2 ->
    edges g1 = edges g2 /\ providers g1 = providers g2 /\
    nodes g1 = nodes g2.
Proof.
  intros H1 H2.
  apply (run_pipeline_mono _ (Nat.max fuel1 fuel2)) in H1; [|lia].
  apply (run_pipeline_mono _ (Nat.max fuel1 fuel2)) in H2; [|lia].
  rewrite H1 in H2. injection H2 as <-. split; [done|].
  intros g1 g2 -> [= <-]. done.
Qed.

End Determinism.

(** ** Well-formed graphs

    Every graph that a pipeline run reaches is well formed. *)

Section WellFormed.
Implicit Types (g : Graph) (s : PassState).

Lemma wf_empty_graph : wf_graph empty_graph = true.
Proof. reflexivity. Qed.

Lemma wf_graph_grow g g' :
  length (nodes g) <= length (nodes g') ->
  edges g' = edges g -> providers g' = providers g ->
  wf_graph g = true -> wf_graph g' = true.
Proof.
  intros Hl He Hp [H1 H2]%wf_graph_spec. apply wf_graph_spec.
  rewrite He, Hp. split.
  - intros e Hin. destruct (H1 e Hin). lia.
  - intros h p v Hv. specialize (H2 h p v Hv). lia.
Qed.

Lemma AddModule_wf g m :
  wf_graph g = true -> wf_graph (fst (AddModule g m)) = true.
Proof.
  apply wf_graph_grow; simpl; [|done..]. rewrite length_app. lia.
Qed.

Lemma add_modules_wf defs g :
  wf_graph g = true -> wf_graph (add_modules defs g) = true.
Proof.
  unfold add_modules. revert g.
  induction defs as [|d defs IH]; intros g H; simpl; [done|].
  apply IH. by apply AddModule_wf.
Qed.

Lemma candidates_lt g name h :
  h ∈ candidates g name -> h < length (nodes g).
Proof.
  unfold candidates. rewrite list_elem_of_In, filter_In, <- list_elem_of_In.
  intros [Hin%elem_of_live_modules _]. by apply live_lt.
Qed.

Lemma AddDependency_wf g from toName tag g' :
  AddDependency g from toName tag = Ok g' ->
  wf_graph g = true -> wf_graph g' = true.
Proof.
  intros (to & Hfrom & Hc & ->)%AddDependency_Ok [H1 H2]%wf_graph_spec.
  apply wf_graph_spec. simpl. split; [|done].
  intros e [Hin | ->%list_elem_of_singleton]%elem_of_app; [by apply H1|].
  simpl. split; [done|]. apply (candidates_lt g toName).
  rewrite Hc. apply list_elem_of_here.
Qed.

Lemma add_dependencies_wf g calls g' :
  add_dependencies g calls = Ok g' ->
  wf_graph g = true -> wf_graph g' = true.
Proof.
  revert g. induction calls as [|[from [toName tag]] calls IH];
    intros g H Hwf; simpl in H.
  - by injection H as <-.
  - destruct (AddDependency g from toName tag) as [g1|err] eqn:HA; [|done].
    simpl in H. eapply IH; [done|]. by eapply AddDependency_wf.
Qed.

Lemma SetProvider_wf g h p v g' :
  SetProvider g h p v = Ok g' ->
  wf_graph g = true -> wf_graph g' = true.
Proof.
  intros (Hh & _ & ->)%SetProvider_Ok [H1 H2]%wf_graph_spec.
  apply wf_graph_spec. simpl. split; [done|].
  intros h' p' v' Hl. destruct (decide ((h, p) = (h', p'))) as [[= <- <-]|Hne].
  - done.
  - rewrite lookup_insert_ne in Hl by done. by eapply H2.
Qed.

Lemma CreateVariations_wf g module axis values g' hs :
  CreateVariations g module axis values = Ok (g', hs) ->
  wf_graph g = true -> wf_graph g' = true.
Proof.
  intros H. destruct (CreateVariations_length _ _ _ _ _ _ H)
    as (_ & Hl & Hp & He).
  apply wf_graph_grow; [lia | done..].
Qed.

Lemma run_mut_wf {A : Type} (axis : string) (self : Handle) (m : Mut A) g
    (a : A) g' :
  run_mut axis self m g = Ok (a, g') ->
  wf_graph g = true -> wf_graph g' = true.
Proof.
  revert g. induction m as [x | p | k IH | values k IH | h p v k IH
                             | p v k IH | tag name k IH]; intros g H Hwf;
    simpl in H.
  - by injection H as _ <-.
  - done.
  - destruct (nodes g !! self); [|done]. by eapply IH.
  - destruct (CreateVariations g self axis values) as [[g1 hs]|e] eqn:HC;
      [|done].
    simpl in H. eapply IH; [done|]. by eapply CreateVariations_wf.
  - destruct (SetProvider g h p v) as [g1|e] eqn:HS; [|done]. simpl in H.
    eapply IH; [done|]. by eapply SetProvider_wf.
  - destruct (SetProvider g self p v) as [g1|e] eqn:HS; [|done]. simpl in H.
    eapply IH; [done|]. by eapply SetProvider_wf.
  - destruct (AddDependency g self name tag) as [g1|e] eqn:HA; [|done].
    simpl in H. eapply IH; [done|]. by eapply AddDependency_wf.
Qed.

Lemma pass_steps_wf n axis fn s s' :
  pass_steps n axis fn s = Ok s' ->
  wf_graph (ps_graph s) = true -> wf_graph (ps_graph s') = true.
Proof.
  revert s. induction n as [|n IH]; intros s H Hwf; simpl in H.
  - by injection H as <-.
  - destruct (pass_step axis fn s) as [s1|e] eqn:H1; [|done]. simpl in H.
    eapply IH; [done|].
    apply pass_step_Ok in H1 as [[_ ->] | (h & rest & u & _ & HR & _)];
      [done|].
    by eapply run_mut_wf.
Qed.

Lemma run_pass_wf fuel reg g visited g' :
  run_pass fuel reg g = Some (Ok (visited, g')) ->
  wf_graph g = true -> wf_graph g' = true.
Proof.
  intros (order & s & _ & Hs & _ & _ & _ & ->)%run_pass_Ok Hwf.
  by apply (pass_steps_wf _ _ _ _ _ Hs).
Qed.

Lemma finalize_wf g : wf_graph g = true -> wf_graph (finalize g) = true.
Proof. apply wf_graph_grow; simpl; [by rewrite length_fmap | done..]. Qed.

Lemma RunAll_wf fuel regs g g' :
  RunAll fuel regs g = Some (Ok g') ->
  wf_graph g = true -> wf_graph g' = true.
Proof.
  revert g. induction regs as [|reg regs IH]; intros g H Hwf; simpl in H.
  - injection H as <-. by apply finalize_wf.
  - destruct (run_pass fuel reg g) as [[[visited g1]|e]|] eqn:Hp;
      [|done..].
    eapply IH; [done|]. by eapply run_pass_wf.
Qed.

Lemma build_graph_wf defs g :
  build_graph defs = Ok g -> wf_graph g = true.
Proof.
  unfold build_graph. intros H.
  eapply add_dependencies_wf; [done|].
  apply add_modules_wf, wf_empty_graph.
Qed.

(** The graph a pipeline run ends with is well formed. *)
Lemma run_pipeline_wf fuel defs regs g :
  run_pipeline fuel defs regs = Some (Ok g) -> wf_graph g = true.
Proof.
  unfold run_pipeline. destruct (build_graph defs) as [g0|e] eqn:Hb; [|done].
  intros H. eapply RunAll_wf; [done|]. by eapply build_graph_wf.
Qed.

End WellFormed.

(** ** Passes that run to their end *)

Section Termination.
Implicit Types (g : Graph) (s : PassState).

Lemma run_mut_no_variations {A : Type} (axis : string) (self : Handle)
    (m : Mut A) g (a : A) g' :
  NoVariations m ->
  run_mut axis self m g = Ok (a, g') -> nodes g' = nodes g.
Proof.
  intros Hnv. revert g.
  induction Hnv as [x | p | k Hk IH | h p v k Hk IH | p v k Hk IH
                    | tag name k Hk IH]; intros g H; simpl in H.
  - by injection H as _ <-.
  - done.
  - destruct (nodes g !! self); [|done]. by eapply IH.
  - destruct (SetProvider g h p v) as [g1|e] eqn:HS; [|done]. simpl in H.
    rewrite (IH _ H). by apply SetProvider_nodes in HS as [? _].
  - destruct (SetProvider g self p v) as [g1|e] eqn:HS; [|done]. simpl in H.
    rewrite (IH _ H). by apply SetProvider_nodes in HS as [? _].
  - destruct (AddDependency g self name tag) as [g1|e] eqn:HA; [|done].
    simpl in H. rewrite (IH _ H).
    by apply AddDependency_Ok in HA as (? & _ & _ & ->).
Qed.

Lemma pass_step_no_variations axis fn s s' :
  NoVariations fn ->
  pass_step axis fn s = Ok s' ->
  nodes (ps_graph s') = nodes (ps_graph s) /\
  length (ps_pending s') <= pred (length (ps_pending s)) .
Proof.
  intros Hnv [[Hnil ->] | (h & rest & u & Hp & HR & Hp1 & _)]%pass_step_Ok.
  - split; [done|]. rewrite Hnil. simpl. lia.
  - apply (run_mut_no_variations _ _ _ _ _ _ Hnv) in HR.
    split; [done|]. rewrite Hp1, Hp. unfold created. rewrite HR.
    rewrite Nat.sub_diag, app_nil_r. simpl. lia.
Qed.

(** A mutator that creates no variations ends its worklist within as many
    visits as the queue is long. *)
Lemma run_worklist_total fuel axis fn s :
  NoVariations fn ->
  length (ps_pending s) <= fuel ->
  exists r, run_worklist fuel axis fn s = Some r /\
    forall s', r = Ok s' -> nodes (ps_graph s') = nodes (ps_graph s).
Proof.
  intros Hnv. revert s. induction fuel as [|fuel IH]; intros s Hlen.
  - destruct (ps_pending s) eqn:E; [|simpl in Hlen; lia].
    exists (Ok s). unfold run_worklist. simpl. rewrite E.
    split; [done|]. by intros s' [= <-].
  - unfold run_worklist. simpl.
    destruct (pass_step axis fn s) as [s1|e] eqn:H1; simpl.
    + apply (pass_step_no_variations _ _ _ _ Hnv) in H1 as [Hn Hl].
      destruct (IH s1) as (r & Hr & Hnodes); [lia|].
      exists r. split; [exact Hr|].
      intros s' Hs'. rewrite <- Hn. by apply Hnodes.
    + exists (Err e). done.
Qed.

Lemma length_live_modules g : length (live_modules g) <= length (nodes g).
Proof.
  unfold live_modules, AllModules.
  etransitivity; [apply List.filter_length_le|]. by rewrite length_seq.
Qed.

Lemma run_pass_total fuel reg g :
  NoVariations (mut_fn reg) ->
  length (nodes g) <= fuel ->
  exists r, run_pass fuel reg g = Some r /\
    forall visited g', r = Ok (visited, g') -> nodes g' = nodes g.
Proof.
  intros Hnv Hlen. unfold run_pass.
  destruct (pass_order (mut_direction reg) g) as [order|e] eqn:Ho.
  2:{ exists (Err e). done. }
  destruct (run_worklist_total fuel (mut_name reg) (mut_fn reg)
              (mkPassState order [] g) Hnv) as (r & Hr & Hnodes).
  { simpl. rewrite (Permutation_length (pass_order_Permutation _ _ _ Ho)).
    pose proof (length_live_modules g). lia. }
  rewrite Hr. destruct r as [s|e].
  - eexists. split; [done|]. intros visited g' Hg'.
    destruct (check_dangling (ps_graph s)) as [g1|e] eqn:Hd; [|done].
    apply check_dangling_Ok in Hd as ->. simpl in Hg'.
    injection Hg' as _ <-. by apply Hnodes.
  - exists (Err e). done.
Qed.

(** Enough fuel gives a result: a pipeline whose mutators create no
    variations runs to its end under a budget of one visit per module. *)
Lemma RunAll_total fuel regs g :
  Forall (fun reg => NoVariations (mut_fn reg)) regs ->
  length (nodes g) <= fuel ->
  exists r, RunAll fuel regs g = Some r.
Proof.
  intros Hall. revert g. induction Hall as [|reg regs Hnv Hall IH];
    intros g Hlen; simpl.
  - eexists. done.
  - destruct (run_pass_total fuel reg g Hnv Hlen) as (r & Hr & Hnodes).
    rewrite Hr. destruct r as [[visited g']|e]; [|eexists; done].
    apply IH. by rewrite (Hnodes _ _ eq_refl).
Qed.

End Termination.

(** ** The fake APEX mutator on the engine *)

Section FakeApexOnEngine.
Implicit Types (g : Graph) (s : PassState).

(** On a module it does not split, the mutator leaves the graph as it is. *)
Lemma fakeApexMutator_run_skip g self n :
  nodes g !! self = Some n ->
  ~ has_apex_variants (node_module n) ->
  run_mut "apex" self fakeApexMutator g = Ok (tt, g).
Proof.
  unfold has_apex_variants. intros Hn Hnot. simpl. rewrite Hn.
  destruct (Kind (node_module n)) eqn:HK; simpl; try done;
    rewrite Hn, length_pos_bool;
    (case_bool_decide as HA; [exfalso; apply Hnot; auto | done]).
Qed.

(** On a module it splits, the mutator is [CreateVariations] followed by
    [SetProvider] on the second variant. *)
Lemma fakeApexMutator_run_split g self n :
  nodes g !! self = Some n ->
  has_apex_variants (node_module n) ->
  run_mut "apex" self fakeApexMutator g =
    bind (CreateVariations g self "apex" [EmptyString; "apex1000"])
      (fun r =>
         bind (SetProvider (fst r) (S (length (nodes g))) ApexInfoProvider
                 fake_apex_info)
           (fun g' => Ok (tt, g'))).
Proof.
  unfold has_apex_variants. intros Hn [HK HA]. simpl. rewrite Hn.
  assert (Hlen : (0 <? length (ApexAvailable (node_module n)))%nat = true).
  { rewrite length_pos_bool. by apply bool_decide_eq_true. }
  destruct HK as [HK|HK]; rewrite HK; simpl; rewrite Hn, Hlen; simpl;
    destruct (CreateVariations g self "apex" [EmptyString; "apex1000"])
      as [[g1 hs]|e] eqn:HC; simpl; try done;
    apply CreateVariations_Ok in HC as (n' & _ & _ & _ & _ & _ & ->);
    simpl; by destruct (SetProvider g1 _ _ _).
Qed.

(** The graph after the mutator has split a module: the module is replaced,
    its two variants are the last two nodes, and the one new provider value
    is the ApexInfo of the second variant. *)
Lemma fakeApexMutator_run_split_Ok g self n :
  wf_graph g = true ->
  nodes g !! self = Some n ->
  has_apex_variants (node_module n) ->
  node_replaced n = false -> node_finalized n = false ->
  run_mut "apex" self fakeApexMutator g =
    Ok (tt,
        {| nodes :=
             <[self := mark_replaced n]> (nodes g) ++
             [mkNode (with_variation (node_module n) "apex" EmptyString)
                false false;
              mkNode (with_variation (node_module n) "apex" "apex1000")
                false false];
           edges := edges g;
           providers :=
             <[(S (length (nodes g)), ApexInfoProvider) := fake_apex_info]>
               (providers g) |}).
Proof.
  intros Hwf Hn Hav Hr Hf.
  rewrite (fakeApexMutator_run_split _ _ _ Hn Hav).
  unfold CreateVariations. rewrite Hn, Hr, Hf. simpl.
  unfold SetProvider. simpl.
  rewrite lookup_app_r; rewrite length_insert; [|lia].
  replace (S (length (nodes g)) - length (nodes g)) with 1 by lia. simpl.
  rewrite wf_graph_fresh by (done || lia). done.
Qed.

(** A mutator changes no node of the arena but the one it visits. *)
Lemma run_mut_others {A : Type} (axis : string) (self : Handle) (m : Mut A) g
    (a : A) g' (h : Handle) :
  run_mut axis self m g = Ok (a, g') ->
  h <> self -> h < length (nodes g) ->
  nodes g' !! h = nodes g !! h.
Proof.
  revert g. induction m as [x | p | k IH | values k IH | h' p v k IH
                             | p v k IH | tag name k IH];
    intros g H Hne Hlt; simpl in H.
  - by injection H as _ <-.
  - done.
  - destruct (nodes g !! self); [|done]. by eapply IH.
  - destruct (CreateVariations g self axis values) as [[g1 hs]|e] eqn:HC;
      [|done].
    simpl in H. pose proof (CreateVariations_grows _ _ _ _ _ _ HC) as [Hl _].
    rewrite (IH _ _ H Hne) by lia.
    apply CreateVariations_Ok in HC as (n & _ & _ & _ & _ & -> & _). simpl.
    rewrite lookup_app_l by (by rewrite length_insert).
    by rewrite list_lookup_insert_ne.
  - destruct (SetProvider g h' p v) as [g1|e] eqn:HS; [|done]. simpl in H.
    apply SetProvider_nodes in HS as [HS _].
    rewrite (IH _ H Hne) by (by rewrite HS). by rewrite HS.
  - destruct (SetProvider g self p v) as [g1|e] eqn:HS; [|done]. simpl in H.
    apply SetProvider_nodes in HS as [HS _].
    rewrite (IH _ H Hne) by (by rewrite HS). by rewrite HS.
  - destruct (AddDependency g self name tag) as [g1|e] eqn:HA; [|done].
    simpl in H. apply AddDependency_Ok in HA as (? & _ & _ & ->).
    by rewrite (IH _ H Hne).
Qed.

Lemma has_apex_variants_with_variation m axis value :
  has_apex_variants m -> has_apex_variants (with_variation m axis value).
Proof. by intros [? ?]. Qed.

(** While a splittable variant is pending, a step of the fake mutator's
    worklist leaves a splittable variant pending: the one there was, or the
    first variant of the one it has just split. *)
Lemma fake_apex_step_pending s s' :
  wf_graph (ps_graph s) = true ->
  (exists h, h ∈ ps_pending s /\ splittable (ps_graph s) h) ->
  pass_step "apex" fakeApexMutator s = Ok s' ->
  wf_graph (ps_graph s') = true /\
  exists h, h ∈ ps_pending s' /\ splittable (ps_graph s') h.
Proof.
  intros Hwf (h & Hin & n & Hn & Hav & Hr & Hf) Hstep.
  apply pass_step_Ok in Hstep
    as [[Hnil _] | (h0 & rest & u & Hp & HR & Hp1 & _)].
  { rewrite Hnil in Hin. by apply elem_of_nil in Hin. }
  split; [by eapply run_mut_wf|].
  rewrite Hp in Hin. rewrite Hp1.
  destruct (decide (h = h0)) as [->|Hne].
  - rewrite (fakeApexMutator_run_split_Ok _ _ _ Hwf Hn Hav Hr Hf) in HR.
    injection HR as _ HR. exists (length (nodes (ps_graph s))). split.
    + apply elem_of_app. right.
      apply elem_of_created; rewrite <- HR; simpl;
        rewrite length_app, length_insert; simpl; lia.
    + exists (mkNode (with_variation (node_module n) "apex" EmptyString)
                false false).
      rewrite <- HR. simpl. split; [|split; [|done]].
      * rewrite lookup_app_r; rewrite length_insert; [|lia].
        by rewrite Nat.sub_diag.
      * by apply has_apex_variants_with_variation.
  - apply elem_of_cons in Hin as [?|Hin]; [done|].
    exists h. split; [apply elem_of_app; by left|].
    exists n. split; [|done].
    rewrite (run_mut_others _ _ _ _ _ _ _ HR Hne); [done|].
    by eapply lookup_lt_Some.
Qed.

Lemma fake_apex_steps_pending n s s' :
  wf_graph (ps_graph s) = true ->
  (exists h, h ∈ ps_pending s /\ splittable (ps_graph s) h) ->
  pass_steps n "apex" fakeApexMutator s = Ok s' ->
  ps_pending s' <> [].
Proof.
  revert s. induction n as [|n IH]; intros s Hwf Hex H; simpl in H.
  - injection H as <-. destruct Hex as (h & Hin & _).
    intros Hnil. rewrite Hnil in Hin. by apply elem_of_nil in Hin.
  - destruct (pass_step "apex" fakeApexMutator s) as [s1|e] eqn:H1; [|done].
    simpl in H. destruct (fake_apex_step_pending _ _ Hwf Hex H1) as [Hwf1 Hex1].
    by eapply IH.
Qed.

(** Under the worklist of 4.3 the pass of the fake APEX mutator does not come
    to a good end on a graph with a module it splits: the variants it makes
    are queued, visited in the same pass and split in their turn, under every
    budget. *)
Lemma fake_apex_pass_never_completes fuel g h visited g' :
  wf_graph g = true ->
  splittable g h ->
  run_pass fuel fakeApexRegistration g <> Some (Ok (visited, g')).
Proof.
  intros Hwf Hsp (order & s & Ho & Hs & Hp & _)%run_pass_Ok. simpl in *.
  apply fake_apex_steps_pending in Hs; [done | done |]. simpl.
  exists h. split; [|done].
  rewrite (pass_order_Permutation _ _ _ Ho). apply elem_of_live_modules.
  destruct Hsp as (n & Hn & _ & Hr & _). unfold live. by rewrite Hn, Hr.
Qed.

End FakeApexOnEngine.

(** ** The definitions at work on the sample data *)

Section Samples.

Example sample_build : build_graph sample_defs = Ok sample_graph.
Proof. reflexivity. Qed.

Example sample_order : pass_order BottomUp sample_graph = Ok [1; 0].
Proof. reflexivity. Qed.

Example sample_pass :
  run_pass 4 split_once_mutator sample_graph =
  Some (Ok ([1; 0; 2; 3], sample_split_graph)).
Proof. vm_compute. reflexivity. Qed.

Example sample_pipeline :
  run_pipeline 4 sample_defs [split_once_mutator] =
  Some (Ok (finalize sample_split_graph)).
Proof. vm_compute. reflexivity. Qed.

(** Under the worklist the variants of [fakeApexMutator] are visited in the
    pass that made them, and are split in their turn: after four visits the
    queue holds four new variants. *)
Example fake_apex_worklist :
  (fun s => (ps_visited s, ps_pending s)) <$>
    (match pass_steps 4 "apex" fakeApexMutator
             (mkPassState [1; 0] [] sample_graph) with
     | Ok s => Some s
     | Err _ => None
     end)
  = Some ([1; 0; 2; 3], [4; 5; 6; 7]).
Proof. vm_compute. reflexivity. Qed.

End Samples.

(** ** The main results at work on the sample data *)

Lemma apexNamePairFromModule_cases_witness :
  @apexNamePairFromModule sample_externals
    (Some (ApexInfoValue (mkApexInfo EmptyString [])))
    sample_library = Returns "platform:libfoo" /\
  @apexNamePairFromModule sample_externals
    (Some (ApexInfoValue (mkApexInfo "apex1000" ["myapex"])))
    sample_library = Returns "myapex:libfoo" /\
  @apexNamePairFromModule sample_externals
    (Some (ApexInfoValue (mkApexInfo "apex1000" [])))
    sample_library = Panics (IndexOutOfRange 0 0).
Proof.
  split; [|split].
  - apply (proj1 (@apexNamePairFromModule_cases sample_externals
                    (mkApexInfo EmptyString []) sample_library)).
    reflexivity.
  - apply (proj1 (proj2 (@apexNamePairFromModule_cases sample_externals
                           (mkApexInfo "apex1000" ["myapex"]) sample_library)
                   eq_refl) "myapex" []).
    reflexivity.
  - apply (proj1 (proj2 (proj2 (@apexNamePairFromModule_cases sample_externals
                                  (mkApexInfo "apex1000" []) sample_library)
                          eq_refl))).
    reflexivity.
Defined.

Lemma fakeApexMutator_short_result_witness :
  calls_of {| oracle_module := sample_library;
              oracle_variations := fun _ _ => [7] |} [] fakeApexMutator =
    ([CallCreateVariations [EmptyString; "apex1000"]],
     Panics (IndexOutOfRange 1 1))
  /\ provider_targets
       (fst (calls_of {| oracle_module := sample_library;
                         oracle_variations := fun _ _ => [7] |} []
               fakeApexMutator)) = [].
Proof.
  apply (fakeApexMutator_short_result
           {| oracle_module := sample_library;
              oracle_variations := fun _ _ => [7] |}).
  - split; [left; reflexivity | discriminate].
  - simpl. lia.
Defined.

Lemma CreateVariations_two_handles_witness :
  exists g' h0 h1 m,
    CreateVariations sample_graph 1 "apex" [EmptyString; "apex1000"] =
      Ok (g', [h0; h1]) /\
    h0 <> h1 /\
    module_of sample_graph 1 = Some m /\
    module_of g' h0 = Some (with_variation m "apex" EmptyString) /\
    module_of g' h1 = Some (with_variation m "apex" "apex1000") /\
    forall p v,
      exists g'',
        SetProvider g' h1 p v = Ok g'' /\
        GetProvider g'' h1 p = Some v /\
        forall q, GetProvider g'' h0 q = None.
Proof.
  apply (CreateVariations_two_handles sample_graph 1 "apex1000");
    reflexivity.
Defined.

Lemma SetProvider_rejects_second_write_witness :
  let stored :=
    {| nodes := nodes sample_graph;
       edges := edges sample_graph;
       providers := {[ (1, ApexInfoProvider) := fake_apex_info ]} |} in
  SetProvider stored 1 ApexInfoProvider (OpaqueValue "other") =
    Err (ProviderAlreadySetError 1 ApexInfoProvider) /\
  SetProvider stored 1 ApexInfoProvider fake_apex_info =
    Err (ProviderAlreadySetError 1 ApexInfoProvider) /\
  GetProvider stored 1 ApexInfoProvider = Some fake_apex_info.
Proof.
  intros stored.
  apply (SetProvider_rejects_second_write sample_graph 1 ApexInfoProvider
           fake_apex_info (OpaqueValue "other") stored).
  reflexivity.
Defined.

Lemma VisitDirectDeps_insertion_order_witness :
  let libbar_first :=
    {| nodes := nodes sample_three_modules;
       edges := [mkEdge 0 2 "lib"; mkEdge 0 1 "lib"];
       providers := ∅ |} in
  let libfoo_first :=
    {| nodes := nodes sample_three_modules;
       edges := [mkEdge 0 1 "lib"; mkEdge 0 2 "lib"];
       providers := ∅ |} in
  let libbar_added :=
    {| nodes := nodes sample_three_modules;
       edges := [mkEdge 0 1 "lib"; mkEdge 1 2 "static"; mkEdge 0 2 "lib"];
       providers := ∅ |} in
  direct_deps libbar_first 0 = [2; 1] /\
  direct_deps libfoo_first 0 = [1; 2] /\
  direct_deps libbar_added 0 = [1; 2] /\
  VisitDirectDeps libbar_first 0 (fun h visited => h :: visited) [] = [1; 2].
Proof.
  intros libbar_first libfoo_first libbar_added.
  assert (H1 : add_dependencies sample_three_modules
                 [(0, ("libbar", "lib")); (0, ("libfoo", "lib"))] =
               Ok libbar_first) by reflexivity.
  assert (H2 : add_dependencies sample_three_modules
                 [(0, ("libfoo", "lib")); (0, ("libbar", "lib"))] =
               Ok libfoo_first) by reflexivity.
  assert (H4 : add_dependencies
                 {| nodes := nodes sample_three_modules;
                    edges := [mkEdge 0 1 "lib"];
                    providers := ∅ |}
                 [(1, ("libbar", "static")); (0, ("libbar", "lib"))] =
               Ok libbar_added) by reflexivity.
  split; [|split; [|split]].
  - exact (proj1 (VisitDirectDeps_insertion_order _ _ _ 0 H1)).
  - exact (proj1 (VisitDirectDeps_insertion_order _ _ _ 0 H2)).
  - exact (proj1 (VisitDirectDeps_insertion_order _ _ _ 0 H4)).
  - exact (proj1 (proj2 (VisitDirectDeps_insertion_order _ _ _ 0 H1))
             (list nat) (fun h visited => h :: visited) []).
Defined.

Lemma sample_pass_visits :
  let queue := ([1; 0] ++ created sample_graph sample_split_graph)%list in
  [1; 0] ≡ₚ live_modules sample_graph /\
  NoDup queue /\
  (forall h, live sample_split_graph h = true -> h ∈ queue) /\
  (forall h, h ∈ queue <->
     live sample_graph h = true \/
     length (nodes sample_graph) <= h < length (nodes sample_split_graph)) /\
  [1; 0; 2; 3] = take 4 queue /\
  [] = drop 4 queue /\
  NoDup [1; 0; 2; 3] /\
  (@nil nat = [] -> [1; 0; 2; 3] = queue).
Proof.
  apply (pass_visits_each_variant_once 4 split_once_mutator sample_graph
           [1; 0] (mkPassState [] [1; 0; 2; 3] sample_split_graph)).
  - reflexivity.
  - vm_compute. reflexivity.
Qed.

Lemma run_pipeline_deterministic_witness :
  Ok (finalize sample_split_graph) = Ok (finalize sample_split_graph) /\
  forall g1 g2,
    Ok (finalize sample_split_graph) = Ok g1 ->
    Ok (finalize sample_split_graph) = Ok g2 ->
    edges g1 = edges g2 /\ providers g1 = providers g2 /\
    nodes g1 = nodes g2.
Proof.
  apply (run_pipeline_deterministic 4 9 sample_defs [split_once_mutator]);
    vm_compute; reflexivity.
Defined.

(** ** The further results at work on the sample data *)

Lemma prebuiltApisFilesForModules_current_no_txt_witness :
  HasSuffix "prebuilts/sdk/current/public/foo.jar" ".txt" = false.
Proof.
  refine (@prebuiltApisFilesForModules_current_no_txt sample_externals
            ["foo"] "prebuilts/sdk/current/public/foo.jar" _).
  vm_compute. by eexists.
Defined.

Lemma FixtureWithPrebuiltApisAndExtensions_any_order_witness :
  (exists bp,
     @FixtureWithPrebuiltApisAndExtensions sample_externals
       {[ "30" := ["foo"]; "current" := [] ]} (Some {[ "1" := ["foo"] ]}) =
     GroupFixturePreparers
       [FixtureAddTextFile "prebuilts/sdk/Android.bp" bp;
        FixtureMergeMockFs
          (@mergePrebuiltFiles sample_externals
             [("current", []); ("30", ["foo"])] (Some [("1", ["foo"])]))]) /\
  (exists bp,
     @FixtureWithPrebuiltApisAndExtensions sample_externals
       {[ "30" := ["foo"]; "current" := [] ]} (Some {[ "1" := ["foo"] ]}) =
     GroupFixturePreparers
       [FixtureAddTextFile "prebuilts/sdk/Android.bp" bp;
        FixtureMergeMockFs
          (@mergePrebuiltFiles sample_externals
             [("30", ["foo"]); ("current", [])] (Some [("1", ["foo"])]))]).
Proof.
  split.
  - destruct (@FixtureWithPrebuiltApisAndExtensions_any_order
                sample_externals
                {[ "30" := ["foo"]; "current" := [] ]}
                (Some {[ "1" := ["foo"] ]})
                [("current", []); ("30", ["foo"])] (Some [("1", ["foo"])]))
      as (bp & mockFS & Heq & -> & _).
    + vm_compute. first [reflexivity | apply Permutation_swap].
    + constructor. vm_compute. reflexivity.
    + by exists bp.
  - destruct (@FixtureWithPrebuiltApisAndExtensions_any_order
                sample_externals
                {[ "30" := ["foo"]; "current" := [] ]}
                (Some {[ "1" := ["foo"] ]})
                [("30", ["foo"]); ("current", [])] (Some [("1", ["foo"])]))
      as (bp & mockFS & Heq & -> & _).
    + vm_compute. first [reflexivity | apply Permutation_swap].
    + constructor. vm_compute. reflexivity.
    + by exists bp.
Defined.

Lemma FixtureWithPrebuiltApisAndExtensions_no_extension_modules_witness :
  @FixtureWithPrebuiltApisAndExtensions sample_externals
    {[ "30" := ["foo"] ]} (Some {[ "1" := []; "2" := [] ]}) =
  @FixtureWithPrebuiltApisAndExtensions sample_externals
    {[ "30" := ["foo"] ]} None.
Proof.
  apply (@FixtureWithPrebuiltApisAndExtensions_no_extension_modules
           sample_externals).
  compute_done.
Defined.

Lemma FixtureConfigureBootJars_art_apex_witness :
  exists setVariables artBootJars,
    @FixtureConfigureBootJars sample_externals
      ["com.android.art:core-oj"; "com.android.artx:foo";
       "platform:framework"] =
      GroupFixturePreparers
        [FixtureModifyProductVariables setVariables;
         FixtureSetBootJars
           ["com.android.art:core-oj"; "com.android.artx:foo";
            "platform:framework"];
         FixtureSetArtBootJars artBootJars;
         PrepareForTestWithFakeDex2oatd] /\
    ("com.android.artx" +:+ ":" +:+ "foo" ∈ artBootJars <->
     "com.android.artx" +:+ ":" +:+ "foo" ∈
       ["com.android.art:core-oj"; "com.android.artx:foo";
        "platform:framework"] /\
     "com.android.artx" ∈ @artApexNames sample_externals).
Proof.
  apply (@FixtureConfigureBootJars_art_apex sample_externals).
  - compute_done.
  - reflexivity.
Defined.

Lemma useLegacyCorePlatformApi_names_as_set_witness :
  @useLegacyCorePlatformApi sample_externals ["core-oj"; "okhttp"; "core-oj"]
    (mkConfig ∅) =
  @useLegacyCorePlatformApi sample_externals ["okhttp"; "core-oj"]
    (mkConfig ∅).
Proof.
  apply (@useLegacyCorePlatformApi_names_as_set sample_externals);
    compute_done.
Defined.

Lemma ApexNamePairsFromModules_first_panic_witness :
  @ApexNamePairsFromModules sample_externals
    (fun module =>
       if decide (Name module = "libfoo")
       then Some (ApexInfoValue (mkApexInfo EmptyString []))
       else None)
    ([sample_library] ++ sample_app :: [sample_library]) =
  Panics (TypeAssertionFailed "android.ApexInfo").
Proof.
  apply (@ApexNamePairsFromModules_first_panic sample_externals _
           [sample_library] sample_app [sample_library]
           ["platform:libfoo"]);
    reflexivity.
Defined.

Lemma FixtureSetBootImageInstallDirOnDevice_last_wins_witness :
  let config : gmap string Pointer :=
    {[ "art" := pointer_to 0; "boot" := pointer_to 1 ]} in
  let configs := fun a : nat =>
    if decide (a = 0) then mkBootImageConfig "apex/art/javalib" 7
    else mkBootImageConfig "system/framework" 9 in
  let configs' := fun a : nat =>
    if decide (a = 0)
    then mkBootImageConfig "system/framework" (otherFields (configs a))
    else configs a in
  exists configs1 configs2,
    FixtureSetBootImageInstallDirOnDevice "art" "system_ext/framework"
      config configs' = Done configs2 /\
    FixtureSetBootImageInstallDirOnDevice "art" "system_ext/framework"
      config configs = Done configs1 /\
    (forall a, configs2 a = configs1 a) /\
    installDirOnDevice (configs 0) = "apex/art/javalib" /\
    installDirOnDevice (configs' 0) = "system/framework" /\
    installDirOnDevice (configs1 0) = "system_ext/framework".
Proof.
  intros config configs configs'.
  destruct (FixtureSetBootImageInstallDirOnDevice_last_wins "art"
              "system/framework" "system_ext/framework" config configs
              configs' eq_refl)
    as (configs1 & configs2 & H2 & H1 & Heq).
  exists configs1, configs2. split; [exact H2|]. split; [exact H1|].
  split; [exact Heq|]. split; [reflexivity|]. split; [reflexivity|].
  injection H1 as <-. reflexivity.
Defined.

(** The replacement of [CheckHiddenAPIRuleInputs] on a text of three
    indented lines with a blank line among them. *)
Example replaceNewlineSpace_sample :
  replaceNewlineSpace false
    ("a" +:+ nl +:+ tab +:+ tab +:+ "b" +:+ nl +:+ nl +:+ "  c" +:+ nl) =
  "a" +:+ nl +:+ "b" +:+ nl +:+ "c" +:+ nl.
Proof. reflexivity. Qed.

Lemma CheckHiddenAPIRuleInputs_indentation_witness :
  CheckHiddenAPIRuleInputs (fun s => s) (fun paths => paths)
    (fun paths => paths) "inputs"
    ("out/a.jar" +:+ String "010" EmptyString +:+ (tab +:+ tab) +:+
     "out/b.jar")
    (mkTestingBuildParams (Some "out/a.jar") ["out/b.jar"] []) =
  CheckHiddenAPIRuleInputs (fun s => s) (fun paths => paths)
    (fun paths => paths) "inputs"
    ("out/a.jar" +:+ String "010" EmptyString +:+ "out/b.jar")
    (mkTestingBuildParams (Some "out/a.jar") ["out/b.jar"] []) /\
  CheckHiddenAPIRuleInputs (fun s => s) (fun paths => paths)
    (fun paths => paths) "inputs"
    (replaceNewlineSpace false "out/b.jar")
    (mkTestingBuildParams (Some "out/a.jar") ["out/b.jar"] []) =
  CheckHiddenAPIRuleInputs (fun s => s) (fun paths => paths)
    (fun paths => paths) "inputs" "out/b.jar"
    (mkTestingBuildParams (Some "out/a.jar") ["out/b.jar"] []).
Proof.
  apply (CheckHiddenAPIRuleInputs_indentation (fun s => s)
           (fun paths => paths) (fun paths => paths) "inputs"
           "out/a.jar" (tab +:+ tab) "out/b.jar"
           (mkTestingBuildParams (Some "out/a.jar") ["out/b.jar"] [])).
  reflexivity.
Defined.
